(** * The Stack layout container and the UI dispatch bridge of package ui

    A shallow embedding of [stack.go] (the [Stack] control: construction,
    [SetStretchy], [make], [allocate], [preferredSize], [Space]) and of
    [uitask_unix.go] (the relay between submitting goroutines and the GTK+
    main loop), followed by the properties established about them.

    Conventions of the embedding:
    - a Go [int] is a [Z] kept in the 64-bit two's-complement range, its
      size on the 64-bit targets; every arithmetic operation of the source
      is followed by its wrap-around ([GoInt.wrap]);
    - a slice is a [list]; indexing outside the slice raises the run-time
      panic, as in Go ([slice_get], [slice_set]);
    - a panic is a value of type [panic]; a function that can panic returns
      an [outcome];
    - the pointer [d *sysSizeData] is threaded as a value: a function that
      may write through it returns the updated record;
    - [sync.Mutex] is left out: the functions are modelled one call at a
      time, and a lock held for the length of a call has no effect on the
      result of that call. *)

From Stdlib Require Import ZArith List String Lia DecimalString.
From stdpp Require Import base numbers list strings.

Open Scope Z_scope.

(** ** Go's [int] *)

Module GoInt.

Definition bits : Z := 64.
Definition min_int : Z := - 2 ^ (bits - 1).
Definition max_int : Z := 2 ^ (bits - 1) - 1.

(** The value a 64-bit signed register holds after computing [z]. *)
Definition wrap (z : Z) : Z := (z + 2 ^ (bits - 1)) mod 2 ^ bits - 2 ^ (bits - 1).

Definition is_int (z : Z) : Prop := min_int <= z <= max_int.

Definition add (a b : Z) : Z := wrap (a + b).
Definition sub (a b : Z) : Z := wrap (a - b).
Definition mul (a b : Z) : Z := wrap (a * b).

(** Go's [/] on integers truncates toward zero.  The source divides only
    after testing the divisor against zero. *)
Definition quo (a b : Z) : Z := wrap (Z.quot a b).

(** [%d] of the [fmt] package. *)
Definition fmt_d (z : Z) : string := NilZero.string_of_int (Z.to_int z).

End GoInt.

(** ** Panics *)

Inductive panic : Type :=
| PanicString (msg : string)                  (* panic("...") *)
| PanicError (msg : string)                   (* panic(fmt.Errorf(...)) *)
| IndexOutOfRange (index : nat) (len : nat).  (* runtime error: index out of range *)

Inductive outcome (A : Type) : Type :=
| Returns (a : A)
| Panics (p : panic).

Arguments Returns {A} a.
Arguments Panics {A} p.

#[global] Instance outcome_ret : MRet outcome := fun A a => Returns a.

#[global] Instance outcome_bind : MBind outcome := fun A B f m =>
  match m with
  | Returns a => f a
  | Panics p => Panics p
  end.

Definition returns {A} (m : outcome A) : Prop := exists a, m = Returns a.
Definition panics {A} (m : outcome A) : Prop := exists p, m = Panics p.

Definition result_or {A} (dflt : A) (m : outcome A) : A :=
  match m with
  | Returns a => a
  | Panics _ => dflt
  end.

(** [l[i]] as an expression. *)
Definition slice_get {A} (l : list A) (i : nat) : outcome A :=
  match l !! i with
  | Some a => Returns a
  | None => Panics (IndexOutOfRange i (length l))
  end.

(** [l[i] = v] as a statement. *)
Definition slice_set {A} (l : list A) (i : nat) (v : A) : outcome (list A) :=
  if decide (i < length l)%nat then Returns (<[i:=v]> l)
  else Panics (IndexOutOfRange i (length l)).

(** ** Data model *)

(** [type orientation bool], [horizontal = false], [vertical = true]. *)
Definition orientation : Type := bool.
Definition horizontal : orientation := false.
Definition vertical : orientation := true.

(** Modelled from the spec: the struct [sysSizeData], declared outside
    stack.go.  It carries the margins and the padding of the current layout
    level; stack.go reads and writes exactly these four fields. *)
Record sysSizeData : Type := mkSizeData {
  xmargin : Z;
  ymargin : Z;
  xpadding : Z;
  ypadding : Z;
}.

(** The value of a [Control] interface variable is identified by the address
    of the object it refers to. *)
Definition ControlRef : Type := nat.
Bind Scope nat_scope with ControlRef.

(** Modelled from the spec: the struct [allocation], declared outside
    stack.go: the rectangle assigned to a control, the control it is assigned
    to, and the optional [neighbor] reference.  stack.go touches only
    [neighbor]. *)
Record allocation : Type := mkAllocation {
  a_x : Z;
  a_y : Z;
  a_width : Z;
  a_height : Z;
  a_this : ControlRef;
  neighbor : option ControlRef;
}.

(** [a.neighbor = c] *)
Definition set_neighbor (c : ControlRef) (a : allocation) : allocation :=
  {| a_x := a_x a; a_y := a_y a; a_width := a_width a; a_height := a_height a;
     a_this := a_this a; neighbor := Some c |}.

Section Model.

(** The state of the native toolkit, which a control's [make] changes, and
    the window handle [*sysData] that [make] receives; stack.go only
    passes them on. *)
Variables (World sysData : Type).

(** Modelled from the spec: the interface [Control], declared outside
    stack.go.  stack.go calls three of its methods.  [make] acts on the
    native toolkit and may return an error (its message) or nil;
    [preferredSize] is a pure query of the sizing context; [allocate]
    returns the allocations of the control and may write to the sizing
    context it is handed (as [Stack.allocate] itself does).
    The allocations a control returns are objects of its own making: the
    pointers in [[]*allocation] are non-nil and pairwise distinct, so an
    allocation is identified with its position in the slice. *)
Record Control : Type := mkControl {
  c_ref : ControlRef;
  c_make : sysData -> World -> World * option string;
  c_allocate : Z -> Z -> Z -> Z -> sysSizeData -> list allocation * sysSizeData;
  c_preferredSize : sysSizeData -> Z * Z;
}.

Record Stack : Type := mkStack {
  created : bool;
  s_orientation : orientation;
  controls : list Control;
  stretchy : list bool;
  width : list Z;
  height : list Z;
}.

Definition newStack (o : orientation) (cs : list Control) : Stack :=
  {| created := false;
     s_orientation := o;
     controls := cs;
     stretchy := replicate (length cs) false;
     width := replicate (length cs) 0;
     height := replicate (length cs) 0 |}.

Definition NewHorizontalStack (cs : list Control) : Stack := newStack horizontal cs.
Definition NewVerticalStack (cs : list Control) : Stack := newStack vertical cs.

Definition with_stretchy (s : Stack) (st : list bool) : Stack :=
  {| created := created s; s_orientation := s_orientation s; controls := controls s;
     stretchy := st; width := width s; height := height s |}.

Definition with_created (s : Stack) (b : bool) : Stack :=
  {| created := b; s_orientation := s_orientation s; controls := controls s;
     stretchy := stretchy s; width := width s; height := height s |}.

Definition with_caches (s : Stack) (ws hs : list Z) : Stack :=
  {| created := created s; s_orientation := s_orientation s; controls := controls s;
     stretchy := stretchy s; width := ws; height := hs |}.

(** *** SetStretchy *)

Definition SetStretchy (s : Stack) (index : Z) : outcome Stack :=
  if created s then
    Panics (PanicString "call to Stack.SetStretchy() after Stack has been created")
  else if (index <? 0) || (index >? Z.of_nat (length (stretchy s))) then
    Panics (PanicError ("index " +:+ GoInt.fmt_d index +:+ " out of range in Stack.SetStretchy()"))
  else
    (* index is not negative here *)
    st ← slice_set (stretchy s) (Z.to_nat index) true;
    Returns (with_stretchy s st).

(** *** make *)

(** [for i, c := range s.controls { err := c.make(window); ... }], from
    index [i] on; the loop is left at the first error. *)
Fixpoint make_from (window : sysData) (i : nat) (cs : list Control) (w : World)
  : World * option string :=
  match cs with
  | [] => (w, None)
  | c :: rest =>
      let '(w1, err) := c_make c window w in
      match err with
      | Some e =>
          (w1, Some ("error adding control " +:+ GoInt.fmt_d (Z.of_nat i)
                     +:+ " to Stack: " +:+ e))
      | None => make_from window (S i) rest w1
      end
  end.

Definition make (s : Stack) (window : sysData) (w : World)
  : Stack * World * option string :=
  let '(w1, err) := make_from window 0 (controls s) w in
  match err with
  | Some e => (s, w1, Some e)
  | None => (with_created s true, w1, None)
  end.

(** *** Loops over [s.controls] *)

(** [for i, c := range cs { body }] from index [i] on, on a loop state of
    type [St]; a panic in the body leaves the loop. *)
Fixpoint range_from {St : Type} (body : nat -> Control -> St -> outcome St)
  (i : nat) (cs : list Control) (st : St) : outcome St :=
  match cs with
  | [] => Returns st
  | c :: rest => st1 ← body i c st; range_from body (S i) rest st1
  end.

(** *** allocate *)

(** Loop state of the first two loops: the caches [s.width] and [s.height],
    then [stretchywid], [stretchyht], [nStretchy]. *)
Record sizing : Type := mkSizing {
  sz_width : list Z;
  sz_height : list Z;
  stretchywid : Z;
  stretchyht : Z;
  nStretchy : Z;
}.

(** 1) get height and width of non-stretchy controls *)
Definition measure_body (s : Stack) (d : sysSizeData) (wid ht : Z)
  (i : nat) (c : Control) (st : sizing) : outcome sizing :=
  b ← slice_get (stretchy s) i;
  if b : bool then
    Returns (mkSizing (sz_width st) (sz_height st) (stretchywid st) (stretchyht st)
                      (GoInt.add (nStretchy st) 1))
  else
    let '(w, h) := c_preferredSize c d in
    if Bool.eqb (s_orientation s) horizontal then
      ws ← slice_set (sz_width st) i w;
      hs ← slice_set (sz_height st) i ht;
      Returns (mkSizing ws hs (GoInt.sub (stretchywid st) w) (stretchyht st) (nStretchy st))
    else
      ws ← slice_set (sz_width st) i wid;
      hs ← slice_set (sz_height st) i h;
      Returns (mkSizing ws hs (stretchywid st) (GoInt.sub (stretchyht st) h) (nStretchy st)).

(** 2) figure out size of stretchy controls: the division *)
Definition split_rest (s : Stack) (st : sizing) : sizing :=
  if negb (nStretchy st =? 0) then
    if Bool.eqb (s_orientation s) horizontal then
      mkSizing (sz_width st) (sz_height st)
               (GoInt.quo (stretchywid st) (nStretchy st)) (stretchyht st) (nStretchy st)
    else
      mkSizing (sz_width st) (sz_height st)
               (stretchywid st) (GoInt.quo (stretchyht st) (nStretchy st)) (nStretchy st)
  else st.

(** 2) figure out size of stretchy controls: the loop *)
Definition stretch_body (s : Stack) (i : nat) (c : Control) (st : sizing) : outcome sizing :=
  b ← slice_get (stretchy s) i;
  if negb b then Returns st
  else
    ws ← slice_set (sz_width st) i (stretchywid st);
    hs ← slice_set (sz_height st) i (stretchyht st);
    Returns (mkSizing ws hs (stretchywid st) (stretchyht st) (nStretchy st)).

(** Loop state of the third loop: the cursor [x], [y]; [current], the
    position in [allocations] of the allocation it points to, or [None]
    for nil; [allocations]; and the sizing context behind [d]. *)
Record placing : Type := mkPlacing {
  pl_x : Z;
  pl_y : Z;
  current : option nat;
  allocations : list allocation;
  pl_d : sysSizeData;
}.

(** 3) now actually place controls *)
Definition place_body (s : Stack) (ws hs : list Z)
  (i : nat) (c : Control) (st : placing) : outcome placing :=
  w ← slice_get ws i;
  h ← slice_get hs i;
  let '(as_, d1) := c_allocate c (pl_x st) (pl_y st) w h (pl_d st) in
  let linked :=
    if Bool.eqb (s_orientation s) horizontal then
      match current st with
      | Some p => alter (set_neighbor (c_ref c)) p (allocations st)
      | None => allocations st
      end
    else allocations st in
  let current1 :=
    if Bool.eqb (s_orientation s) horizontal then
      if negb (length as_ =? 0)%nat then Some (length linked) else None
    else current st in
  let allocations1 := linked ++ as_ in
  if Bool.eqb (s_orientation s) horizontal then
    Returns (mkPlacing (GoInt.add (pl_x st) (GoInt.add w (xpadding d1))) (pl_y st)
                       current1 allocations1 d1)
  else
    Returns (mkPlacing (pl_x st) (GoInt.add (pl_y st) (GoInt.add h (ypadding d1)))
                       current1 allocations1 d1).

(** The offered rectangle after step 0, and the sizing context after the
    margins have been taken out of it. *)
Definition steal_margins (d : sysSizeData) : sysSizeData :=
  {| xmargin := 0; ymargin := 0; xpadding := xpadding d; ypadding := ypadding d |}.

Definition inset_width (s : Stack) (wid : Z) (d : sysSizeData) : Z :=
  let wid1 := GoInt.sub wid (GoInt.mul (xmargin d) 2) in
  if Bool.eqb (s_orientation s) horizontal then
    GoInt.sub wid1 (GoInt.mul (GoInt.sub (Z.of_nat (length (controls s))) 1) (xpadding d))
  else wid1.

Definition inset_height (s : Stack) (ht : Z) (d : sysSizeData) : Z :=
  let ht1 := GoInt.sub ht (GoInt.mul (ymargin d) 2) in
  if Bool.eqb (s_orientation s) horizontal then ht1
  else
    GoInt.sub ht1 (GoInt.mul (GoInt.sub (Z.of_nat (length (controls s))) 1) (ypadding d)).

(** Steps 1 and 2: the caches after both sizing loops. *)
Definition resolve_sizes (s : Stack) (wid ht : Z) (d1 : sysSizeData) : outcome sizing :=
  st1 ← range_from (measure_body s d1 wid ht) 0 (controls s)
         (mkSizing (width s) (height s) wid ht 0);
  range_from (stretch_body s) 0 (controls s) (split_rest s st1).

(** The result is the returned slice, the receiver with its caches as the
    call leaves them, and the sizing context behind [d] as the call leaves
    it. *)
Definition allocate (s : Stack) (x y wid ht : Z) (d : sysSizeData)
  : outcome (list allocation * Stack * sysSizeData) :=
  if (length (controls s) =? 0)%nat then Returns ([], s, d)
  else
    let d1 := steal_margins d in
    let x0 := GoInt.add x (xmargin d) in
    let y0 := GoInt.add y (ymargin d) in
    let wid1 := inset_width s wid d in
    let ht1 := inset_height s ht d in
    st2 ← resolve_sizes s wid1 ht1 d1;
    st3 ← range_from (place_body s (sz_width st2) (sz_height st2)) 0 (controls s)
           (mkPlacing x0 y0 None [] d1);
    Returns (allocations st3, with_caches s (sz_width st2) (sz_height st2), pl_d st3).

(** *** preferredSize *)

(** The closure [max] of [preferredSize]. *)
Definition max (a b : Z) : Z := if a >? b then a else b.

(** Loop state: [width], [height], [nStretchy], [maxswid], [maxsht]. *)
Record tally : Type := mkTally {
  t_width : Z;
  t_height : Z;
  t_nStretchy : Z;
  maxswid : Z;
  maxsht : Z;
}.

Definition tally_body (s : Stack) (d : sysSizeData)
  (i : nat) (c : Control) (st : tally) : outcome tally :=
  let '(w, h) := c_preferredSize c d in
  b ← slice_get (stretchy s) i;
  let st1 :=
    if b : bool then
      mkTally (t_width st) (t_height st) (GoInt.add (t_nStretchy st) 1)
              (max (maxswid st) w) (max (maxsht st) h)
    else st in
  if Bool.eqb (s_orientation s) horizontal then
    Returns (mkTally (if negb b then GoInt.add (t_width st1) w else t_width st1)
                     (max (t_height st1) h)
                     (t_nStretchy st1) (maxswid st1) (maxsht st1))
  else
    Returns (mkTally (max (t_width st1) w)
                     (if negb b then GoInt.add (t_height st1) h else t_height st1)
                     (t_nStretchy st1) (maxswid st1) (maxsht st1)).

Definition preferredSize (s : Stack) (d : sysSizeData) : outcome (Z * Z) :=
  if (length (controls s) =? 0)%nat then Returns (0, 0)
  else
    let gaps := GoInt.sub (Z.of_nat (length (controls s))) 1 in
    let st0 :=
      if Bool.eqb (s_orientation s) horizontal then
        mkTally (GoInt.mul gaps (xpadding d)) 0 0 0 0
      else
        mkTally 0 (GoInt.mul gaps (ypadding d)) 0 0 0 in
    st ← range_from (tally_body s d) 0 (controls s) st0;
    if Bool.eqb (s_orientation s) horizontal then
      Returns (GoInt.add (t_width st) (GoInt.mul (t_nStretchy st) (maxswid st)), t_height st)
    else
      Returns (t_width st, GoInt.add (t_height st) (GoInt.mul (t_nStretchy st) (maxsht st))).

(** *** Space *)

(** [var space Control = newStack(horizontal)] *)
Definition space : Stack := newStack horizontal [].

(** A [*Stack] seen through the [Control] interface, at address [ref].
    The default of [result_or] stands for a call that panics. *)
Definition Stack_Control (ref : ControlRef) (s : Stack) : Control :=
  {| c_ref := ref;
     c_make := fun window w => let '(_, w1, err) := make s window w in (w1, err);
     c_allocate := fun x y wid ht d =>
       let '(as_, _, d1) := result_or ([], s, d) (allocate s x y wid ht d) in (as_, d1);
     c_preferredSize := fun d => result_or (0, 0) (preferredSize s d) |}.

(** [func Space() Control { return space }] *)
Definition Space (ref : ControlRef) : Control := Stack_Control ref space.

(** Modelled from the spec: a leaf widget, declared outside stack.go.  It
    reports a fixed preferred size, and its [allocate] returns the one
    allocation that records the rectangle it was given. *)
Definition leaf (ref : ControlRef) (pw ph : Z) : Control :=
  {| c_ref := ref;
     c_make := fun _ w => (w, None);
     c_allocate := fun x y wid ht d => ([mkAllocation x y wid ht ref None], d);
     c_preferredSize := fun _ => (pw, ph) |}.

End Model.

Arguments c_ref {World sysData} c.
Arguments c_make {World sysData} c window w.
Arguments c_allocate {World sysData} c x y wid ht d.
Arguments c_preferredSize {World sysData} c d.
Arguments mkStack {World sysData}.
Arguments created {World sysData} s.
Arguments s_orientation {World sysData} s.
Arguments controls {World sysData} s.
Arguments stretchy {World sysData} s.
Arguments width {World sysData} s.
Arguments height {World sysData} s.
Arguments newStack {World sysData} o cs.
Arguments NewHorizontalStack {World sysData} cs.
Arguments NewVerticalStack {World sysData} cs.
Arguments with_stretchy {World sysData} s st.
Arguments with_created {World sysData} s b.
Arguments with_caches {World sysData} s ws hs.
Arguments SetStretchy {World sysData} s index.
Arguments make_from {World sysData} window i cs w.
Arguments make {World sysData} s window w.
Arguments range_from {World sysData St} body i cs st.
Arguments measure_body {World sysData} s d wid ht i c st.
Arguments split_rest {World sysData} s st.
Arguments stretch_body {World sysData} s i c st.
Arguments place_body {World sysData} s ws hs i c st.
Arguments inset_width {World sysData} s wid d.
Arguments inset_height {World sysData} s ht d.
Arguments resolve_sizes {World sysData} s wid ht d1.
Arguments allocate {World sysData} s x y wid ht d.
Arguments tally_body {World sysData} s d i c st.
Arguments preferredSize {World sysData} s d.
Arguments space {World sysData}.
Arguments Stack_Control {World sysData} ref s.
Arguments Space {World sysData} ref.
Arguments leaf {World sysData} ref pw ph.

(** A widget in a world that is the list of the controls realized so far, in
    order: its [make] adds the widget's address to the world and returns the
    given error, if any; in layout it behaves as [leaf]. *)
Definition widget (ref : ControlRef) (pw ph : Z) (err : option string)
  : Control (list ControlRef) unit :=
  {| c_ref := ref;
     c_make := fun _ w => (w ++ [ref], err);
     c_allocate := fun x y wid ht d => ([mkAllocation x y wid ht ref None], d);
     c_preferredSize := fun _ => (pw, ph) |}.

(** ** Vocabulary of the statements about Stack *)

Section Vocabulary.

Context {World sysData : Type}.
Implicit Types (s : Stack World sysData) (c : Control World sysData).

(** The invariant of the struct: the three parallel slices are as long as
    [controls]. *)
Definition wf s : Prop :=
  length (stretchy s) = length (controls s) /\
  length (width s) = length (controls s) /\
  length (height s) = length (controls s).

(** The primary axis is the axis of the orientation, the cross axis the
    other one; both select from a pair (horizontal extent, vertical
    extent). *)
Definition primary (o : orientation) (p : Z * Z) : Z :=
  if Bool.eqb o horizontal then p.1 else p.2.

Definition cross (o : orientation) (p : Z * Z) : Z :=
  if Bool.eqb o horizontal then p.2 else p.1.

Definition padding (d : sysSizeData) : Z * Z := (xpadding d, ypadding d).
Definition margin (d : sysSizeData) : Z * Z := (xmargin d, ymargin d).

Definition sum_Z (l : list Z) : Z := foldr Z.add 0 l.


(** Each control with its stretchy flag. *)
Definition flagged s : list (Control World sysData * bool) :=
  zip (controls s) (stretchy s).

(** The controls among [l] whose flag is [b]. *)
Definition select (b : bool) (l : list (Control World sysData * bool))
  : list (Control World sysData) :=
  (filter (fun cb => cb.2 = b) l).*1.

(** Preferred extents of the controls [cs] along the primary and along the
    cross axis. *)
Definition primary_extents (o : orientation) (d : sysSizeData)
  (cs : list (Control World sysData)) : list Z :=
  (fun c => primary o (c_preferredSize c d)) <$> cs.

Definition cross_extents (o : orientation) (d : sysSizeData)
  (cs : list (Control World sysData)) : list Z :=
  (fun c => cross o (c_preferredSize c d)) <$> cs.

(** The largest element of [l], and 0 when there is none or none above 0:
    what a running [max] that starts from the zero value computes. *)
Definition max_from_zero (l : list Z) : Z := foldr Z.max 0 l.

(** The offered rectangle after step 0 of [allocate], along the primary
    and along the cross axis. *)
Definition offered_primary s (wid ht : Z) (d : sysSizeData) : Z :=
  let o := s_orientation s in
  GoInt.wrap (primary o (wid, ht) - primary o (margin d) * 2
              - (Z.of_nat (length (controls s)) - 1) * primary o (padding d)).

Definition offered_cross s (wid ht : Z) (d : sysSizeData) : Z :=
  let o := s_orientation s in
  GoInt.wrap (cross o (wid, ht) - cross o (margin d) * 2).

(** What step 1 leaves for the stretchy controls, and what step 2 gives
    to each of them. *)
Definition rest_for_stretchy s (wid ht : Z) (d : sysSizeData) : Z :=
  let o := s_orientation s in
  GoInt.wrap (offered_primary s wid ht d
              - sum_Z (primary_extents o (steal_margins d) (select false (flagged s)))).

Definition stretchy_share s (wid ht : Z) (d : sysSizeData) : Z :=
  GoInt.quo (rest_for_stretchy s wid ht d)
            (Z.of_nat (length (select true (flagged s)))).

(** The world after [make] has been called on each of [cs] in order. *)
Definition realized (window : sysData) (cs : list (Control World sysData)) (w : World) : World :=
  foldl (fun w c => (c_make c window w).1) w cs.

(** The state of the third loop of [allocate] after its first [k]
    iterations. *)
Definition placing_after s (x y wid ht : Z) (d : sysSizeData) (k : nat) : outcome placing :=
  let d1 := steal_margins d in
  st2 ← resolve_sizes s (inset_width s wid d) (inset_height s ht d) d1;
  range_from (place_body s (sz_width st2) (sz_height st2)) 0 (take k (controls s))
    (mkPlacing (GoInt.add x (xmargin d)) (GoInt.add y (ymargin d)) None [] d1).

(** What the control at index [k] returns when the third loop reaches it
    in state [st], given the caches of [s']. *)
Definition child_allocate s' (k : nat) c (st : placing) : list allocation * sysSizeData :=
  c_allocate c (pl_x st) (pl_y st) (width s' !!! k) (height s' !!! k) (pl_d st).

(** *** Invariants of the loops *)

(** What the loop of [preferredSize] has computed after [i] iterations. *)
Definition tallied s (d : sysSizeData) (i : nat) (st : tally) : Prop :=
  let o := s_orientation s in
  let pre := take i (flagged s) in
  t_nStretchy st = GoInt.wrap (Z.of_nat (length (select true pre))) /\
  primary o (maxswid st, maxsht st)
    = max_from_zero (primary_extents o d (select true pre)) /\
  primary o (t_width st, t_height st)
    = GoInt.wrap ((Z.of_nat (length (controls s)) - 1) * primary o (padding d)
                  + sum_Z (primary_extents o d (select false pre))) /\
  cross o (t_width st, t_height st) = max_from_zero (cross_extents o d pre.*1).

(** The caches hold, at index [j], the extent [p] along the primary axis
    and [x] along the cross axis. *)
Definition cached (o : orientation) (ws hs : list Z) (j : nat) (p x : Z) : Prop :=
  exists wv hv, ws !! j = Some wv /\ hs !! j = Some hv /\
                primary o (wv, hv) = p /\ cross o (wv, hv) = x.

(** What the first loop of [allocate] has computed after [i] iterations. *)
Definition measured s (d1 : sysSizeData) (wid ht : Z) (i : nat) (st : sizing) : Prop :=
  let o := s_orientation s in
  let pre := take i (flagged s) in
  length (sz_width st) = length (controls s) /\
  length (sz_height st) = length (controls s) /\
  nStretchy st = GoInt.wrap (Z.of_nat (length (select true pre))) /\
  primary o (stretchywid st, stretchyht st)
    = GoInt.wrap (primary o (wid, ht) - sum_Z (primary_extents o d1 (select false pre))) /\
  cross o (stretchywid st, stretchyht st) = cross o (wid, ht) /\
  forall j c, (j < i)%nat -> controls s !! j = Some c -> stretchy s !! j = Some false ->
    cached o (sz_width st) (sz_height st) j
           (primary o (c_preferredSize c d1)) (cross o (wid, ht)).

(** The share of a stretchy control as the code computes it from the count
    it has run up. *)
Definition share_of (rest n : Z) : Z := if n =? 0 then rest else GoInt.quo rest n.

(** What the second loop has computed after [i] iterations, [st1] being
    the state the first loop ended in. *)
Definition stretched s (d1 : sysSizeData) (wid ht : Z) (st1 : sizing) (i : nat)
    (st : sizing) : Prop :=
  let o := s_orientation s in
  length (sz_width st) = length (controls s) /\
  length (sz_height st) = length (controls s) /\
  stretchywid st = stretchywid (split_rest s st1) /\
  stretchyht st = stretchyht (split_rest s st1) /\
  (forall j c, controls s !! j = Some c -> stretchy s !! j = Some false ->
     cached o (sz_width st) (sz_height st) j
            (primary o (c_preferredSize c d1)) (cross o (wid, ht))) /\
  (forall j, (j < i)%nat -> stretchy s !! j = Some true ->
     sz_width st !! j = Some (stretchywid (split_rest s st1)) /\
     sz_height st !! j = Some (stretchyht (split_rest s st1))).

(** [allocations] as the neighbor assignment of one iteration leaves it. *)
Definition link_current s c (st : placing) : list allocation :=
  if Bool.eqb (s_orientation s) horizontal then
    match current st with
    | Some p => alter (set_neighbor (c_ref c)) p (allocations st)
    | None => allocations st
    end
  else allocations st.

End Vocabulary.

(** ** The UI dispatch bridge *)

Module Bridge.

(** A unit of work, a [func()], is named by the goroutine that submits it:
    goroutine [i] executes the statement [uitask <- f_i]. *)
Abbreviation work := nat (only parsing).

(** A submitting goroutine: blocked in the send [uitask <- f], or past it. *)
Inductive sender : Type := Sending | Resumed.

(** The relay goroutine of [ui]:
    [for f := range uitask { done := make(chan struct{});
       gdk_threads_add_idle(&gtkIdleOp{what: f, done: done}); <-done; close(done) }] *)
Inductive relay : Type :=
| AtRange                 (* blocked in the receive of [range uitask] *)
| AtAddIdle (f : work)    (* has received f, before gdk_threads_add_idle *)
| AtRecvDone (f : work)   (* blocked in [<-done] *)
| AtClose (f : work).     (* before [close(done)] *)

(** The GTK+ main loop on the locked OS thread.
    Modelled from the spec: the idle callback [our_idle_callback], declared
    outside uitask_unix.go: it executes the unit of work synchronously, then
    raises the completion signal, a send on the operation's [done]. *)
Inductive mainloop : Type :=
| Iterating               (* in gtk_main, between idle callbacks *)
| InWhat (f : work)       (* executing the unit of work *)
| AtSendDone (f : work).  (* unit finished, blocked in the send on done *)

Record state : Type := mkState {
  senders : list sender;
  relay_at : relay;
  idle_ops : list work;       (* operations added with gdk_threads_add_idle *)
  loop_at : mainloop;
  finished : list work;       (* units that have finished executing *)
}.

(** The moves of the scheduler. *)
Inductive event : Type :=
| Handoff (i : nat)   (* [uitask] is unbuffered: send of goroutine i meets the receive *)
| AddIdle             (* the relay calls gdk_threads_add_idle *)
| Dispatch            (* the main loop calls the first idle operation *)
| WhatReturns         (* the unit of work returns *)
| Done                (* the send on [done] meets the relay's receive *)
| Close.              (* the relay closes [done] and loops *)

Definition step (e : event) (σ : state) : option state :=
  match e with
  | Handoff i =>
      match senders σ !! i, relay_at σ with
      | Some Sending, AtRange =>
          Some (mkState (<[i:=Resumed]> (senders σ)) (AtAddIdle i)
                        (idle_ops σ) (loop_at σ) (finished σ))
      | _, _ => None
      end
  | AddIdle =>
      match relay_at σ with
      | AtAddIdle f =>
          Some (mkState (senders σ) (AtRecvDone f)
                        (idle_ops σ ++ [f]) (loop_at σ) (finished σ))
      | _ => None
      end
  | Dispatch =>
      match loop_at σ, idle_ops σ with
      | Iterating, f :: ops =>
          Some (mkState (senders σ) (relay_at σ) ops (InWhat f) (finished σ))
      | _, _ => None
      end
  | WhatReturns =>
      match loop_at σ with
      | InWhat f =>
          Some (mkState (senders σ) (relay_at σ) (idle_ops σ) (AtSendDone f)
                        (finished σ ++ [f]))
      | _ => None
      end
  | Done =>
      match loop_at σ, relay_at σ with
      | AtSendDone f, AtRecvDone g =>
          if decide (f = g) then
            Some (mkState (senders σ) (AtClose g) (idle_ops σ) Iterating (finished σ))
          else None
      | _, _ => None
      end
  | Close =>
      match relay_at σ with
      | AtClose _ =>
          Some (mkState (senders σ) AtRange (idle_ops σ) (loop_at σ) (finished σ))
      | _ => None
      end
  end.

Fixpoint run (es : list event) (σ : state) : option state :=
  match es with
  | [] => Some σ
  | e :: rest =>
      match step e σ with
      | Some σ1 => run rest σ1
      | None => None
      end
  end.

(** The state once [ui] has started the relay and entered [gtk_main], with
    [n] goroutines about to submit. *)
Definition ui (n : nat) : state :=
  mkState (replicate n Sending) AtRange [] Iterating [].

Definition reachable (σ : state) : Prop :=
  exists n es, run es (ui n) = Some σ.

(** Unit [i] has been handed to the relay and has not finished yet. *)
Definition in_flight (σ : state) (i : work) : Prop :=
  senders σ !! i = Some Resumed /\ i ∉ finished σ.

(** "The submitting caller remains blocked until its unit of work has
    finished executing". *)
Definition blocked_until_finished : Prop :=
  forall σ i, reachable σ -> senders σ !! i = Some Resumed -> i ∈ finished σ.

(** What holds of the relay, the idle operations and the main loop in
    every state the bridge gets to. *)
Definition invariant (σ : state) : Prop :=
  (forall i, i ∈ finished σ -> senders σ !! i = Some Resumed) /\
  match relay_at σ with
  | AtRange =>
      idle_ops σ = [] /\ loop_at σ = Iterating /\ forall i, ~ in_flight σ i
  | AtAddIdle f =>
      idle_ops σ = [] /\ loop_at σ = Iterating /\ in_flight σ f /\
      forall i, in_flight σ i -> i = f
  | AtRecvDone f =>
      ((idle_ops σ = [f] /\ loop_at σ = Iterating /\ in_flight σ f) \/
       (idle_ops σ = [] /\ loop_at σ = InWhat f /\ in_flight σ f) \/
       (idle_ops σ = [] /\ loop_at σ = AtSendDone f /\ f ∈ finished σ)) /\
      forall i, in_flight σ i -> i = f
  | AtClose f =>
      idle_ops σ = [] /\ loop_at σ = Iterating /\ f ∈ finished σ /\
      forall i, ~ in_flight σ i
  end.

End Bridge.

(** ** The rest of stack.go, and the vocabulary of the further properties *)

Section Lifecycle.

Context {World sysData : Type}.
Implicit Types (s : Stack World sysData) (c : Control World sysData).

(** [func (s *Stack) commitResize(c *allocation, d *sysSizeData)] and
    [func (s *Stack) getAuxResizeInfo(d *sysSizeData)]: empty bodies. *)
Definition commitResize s (a : allocation) (d : sysSizeData)
  : Stack World sysData * allocation * sysSizeData := (s, a, d).

Definition getAuxResizeInfo s (d : sysSizeData) : Stack World sysData * sysSizeData := (s, d).

(** A call of one of the methods of a [*Stack]. *)
Inductive call : Type :=
| CallSetStretchy (index : Z)
| CallMake (window : sysData)
| CallAllocate (x y wid ht : Z) (d : sysSizeData)
| CallPreferredSize (d : sysSizeData)
| CallCommitResize (a : allocation) (d : sysSizeData)
| CallGetAuxResizeInfo (d : sysSizeData).

(** The Stack and the world after a call; what the call returns besides is
    dropped, an error of [make] included. *)
Definition perform (k : call) (sw : Stack World sysData * World)
  : outcome (Stack World sysData * World) :=
  let '(s, w) := sw in
  match k with
  | CallSetStretchy index => s1 ← SetStretchy s index; Returns (s1, w)
  | CallMake window => let '(s1, w1, _) := make s window w in Returns (s1, w1)
  | CallAllocate x y wid ht d =>
      r ← allocate s x y wid ht d; let '(_, s1, _) := r in Returns (s1, w)
  | CallPreferredSize d => _ ← preferredSize s d; Returns (s, w)
  | CallCommitResize a d => let '(s1, _, _) := commitResize s a d in Returns (s1, w)
  | CallGetAuxResizeInfo d => let '(s1, _) := getAuxResizeInfo s d in Returns (s1, w)
  end.

Fixpoint perform_all (ks : list call) (sw : Stack World sysData * World)
  : outcome (Stack World sysData * World) :=
  match ks with
  | [] => Returns sw
  | k :: rest => sw1 ← perform k sw; perform_all rest sw1
  end.

(** A control whose [allocate], handed a sizing context without margins,
    leaves the context as it is. *)
Definition keeps_context c : Prop :=
  forall x y wid ht d, xmargin d = 0 -> ymargin d = 0 ->
    (c_allocate c x y wid ht d).2 = d.

(** The extents along the primary axis that the caches of [s] hold, in the
    order of the controls. *)
Definition cached_extents s : list Z :=
  zip_with (fun w h => primary (s_orientation s) (w, h)) (width s) (height s).

(** A flag that is set in [l1] is set in [l2]. *)
Definition flags_kept (l1 l2 : list bool) : Prop :=
  forall j, l1 !! j = Some true -> l2 !! j = Some true.

(** All of an allocation but its [neighbor]. *)
Definition rect_of (a : allocation) : Z * Z * Z * Z * ControlRef :=
  (a_x a, a_y a, a_width a, a_height a, a_this a).

End Lifecycle.

Arguments call : clear implicits.

(** * Properties *)

(** ** Arithmetic of Go's [int] *)

Section GoIntFacts.

Import GoInt.

Lemma wrap_is_int z : is_int (wrap z).
Proof.
  unfold is_int, wrap, min_int, max_int, bits.
  pose proof (Z.mod_pos_bound (z + 2 ^ (64 - 1)) (2 ^ 64) ltac:(lia)). lia.
Qed.

Lemma wrap_id z : is_int z -> wrap z = z.
Proof.
  unfold is_int, wrap, min_int, max_int, bits. intros H.
  rewrite Z.mod_small; lia.
Qed.

Lemma wrap_eq_mod a b : a mod 2 ^ bits = b mod 2 ^ bits -> wrap a = wrap b.
Proof.
  unfold wrap. intros H.
  rewrite (Zplus_mod a), H, <- Zplus_mod. reflexivity.
Qed.

Lemma wrap_mod z : wrap z mod 2 ^ bits = z mod 2 ^ bits.
Proof.
  unfold wrap. rewrite Zminus_mod, Zmod_mod, <- Zminus_mod. f_equal. lia.
Qed.

Lemma wrap_wrap a : wrap (wrap a) = wrap a.
Proof. apply wrap_id, wrap_is_int. Qed.

Lemma wrap_add_l a b : wrap (wrap a + b) = wrap (a + b).
Proof. apply wrap_eq_mod. rewrite Zplus_mod, wrap_mod, <- Zplus_mod. reflexivity. Qed.

Lemma wrap_add_r a b : wrap (a + wrap b) = wrap (a + b).
Proof. rewrite Z.add_comm, wrap_add_l. f_equal; lia. Qed.

Lemma wrap_sub_l a b : wrap (wrap a - b) = wrap (a - b).
Proof. apply wrap_eq_mod. rewrite Zminus_mod, wrap_mod, <- Zminus_mod. reflexivity. Qed.

Lemma wrap_sub_r a b : wrap (a - wrap b) = wrap (a - b).
Proof. apply wrap_eq_mod. rewrite Zminus_mod, wrap_mod, <- Zminus_mod. reflexivity. Qed.

Lemma wrap_mul_l a b : wrap (wrap a * b) = wrap (a * b).
Proof. apply wrap_eq_mod. rewrite Zmult_mod, wrap_mod, <- Zmult_mod. reflexivity. Qed.

Lemma wrap_mul_r a b : wrap (a * wrap b) = wrap (a * b).
Proof. rewrite Z.mul_comm, wrap_mul_l. f_equal; lia. Qed.


Lemma quo_one a : quo a 1 = wrap a.
Proof. unfold quo. by rewrite Z.quot_1_r. Qed.

End GoIntFacts.

Create Rewrite HintDb gowrap.

#[global] Hint Rewrite wrap_wrap wrap_add_l wrap_add_r wrap_sub_l wrap_sub_r
  wrap_mul_l wrap_mul_r : gowrap.

(** Brings the sums, differences and products of the source under one
    [wrap]. *)
Ltac gowrap :=
  unfold GoInt.add, GoInt.sub, GoInt.mul in *; autorewrite with gowrap in *.

Lemma max_is_Zmax a b : max a b = Z.max a b.
Proof. unfold max. destruct (Z.gtb_spec a b); lia. Qed.

(** ** Slices and outcomes *)

Lemma slice_get_Returns {A} (l : list A) i a :
  l !! i = Some a -> slice_get l i = Returns a.
Proof. unfold slice_get. by intros ->. Qed.

Lemma slice_set_Returns {A} (l : list A) i v :
  (i < length l)%nat -> slice_set l i v = Returns (<[i:=v]> l).
Proof. unfold slice_set. intros H. by rewrite decide_True. Qed.

Lemma slice_set_Panics {A} (l : list A) i v :
  (length l <= i)%nat -> slice_set l i v = Panics (IndexOutOfRange i (length l)).
Proof. unfold slice_set. intros H. rewrite decide_False; [done | lia]. Qed.



(** ** Loops over the controls *)

Section Loops.

Context {World sysData St : Type}.
Implicit Types (body : nat -> Control World sysData -> St -> outcome St).

Lemma range_from_app body i l1 l2 st :
  range_from body i (l1 ++ l2) st =
  (range_from body i l1 st ≫= range_from body (i + length l1) l2).
Proof.
  revert i st. induction l1 as [| c l1 IH]; intros i st; simpl.
  - by rewrite Nat.add_0_r.
  - destruct (body i c st) as [st1 | p]; simpl; [| done].
    rewrite IH. by replace (S i + length l1)%nat with (i + S (length l1))%nat by lia.
Qed.

Lemma range_from_snoc body l c st :
  range_from body 0 (l ++ [c]) st = (range_from body 0 l st ≫= body (length l) c).
Proof.
  rewrite range_from_app. simpl.
  destruct (range_from body 0 l st) as [st1 | p]; simpl; [| done].
  by destruct (body (length l) c st1).
Qed.

(** The rule of the loop invariant: the loop returns, and in a state that
    satisfies the invariant at the length of the slice. *)
Lemma range_from_invariant (I : nat -> St -> Prop) body cs st0 :
  I 0%nat st0 ->
  (forall i c st, cs !! i = Some c -> I i st ->
     exists st1, body i c st = Returns st1 /\ I (S i) st1) ->
  exists st1, range_from body 0 cs st0 = Returns st1 /\ I (length cs) st1.
Proof.
  intros H0 Hstep.
  assert (G : forall rest pre st, cs = pre ++ rest -> I (length pre) st ->
            exists st1, range_from body (length pre) rest st = Returns st1 /\
                        I (length pre + length rest)%nat st1).
  { induction rest as [| c rest IH]; intros pre st Hcs HI; simpl.
    - exists st. by rewrite Nat.add_0_r.
    - destruct (Hstep (length pre) c st) as (st1 & Hb & HI1); [| done |].
      { subst cs. by rewrite list_lookup_middle. }
      rewrite Hb. simpl.
      destruct (IH (pre ++ [c]) st1) as (st2 & Hr & HI2).
      { subst cs. by rewrite <- app_assoc. }
      { rewrite length_app. simpl. by rewrite Nat.add_1_r. }
      rewrite length_app in Hr, HI2. simpl in Hr, HI2.
      rewrite Nat.add_1_r in Hr. exists st2. split; [done |].
      by replace (length pre + S (length rest))%nat
        with (length pre + 1 + length rest)%nat by lia. }
  destruct (G cs [] st0) as (st1 & Hr & HI); eauto.
Qed.

(** The same rule for the first [k] iterations. *)
Lemma range_from_take_invariant (I : nat -> St -> Prop) body cs st0 k :
  (k <= length cs)%nat ->
  I 0%nat st0 ->
  (forall i c st, cs !! i = Some c -> I i st ->
     exists st1, body i c st = Returns st1 /\ I (S i) st1) ->
  exists st1, range_from body 0 (take k cs) st0 = Returns st1 /\ I k st1.
Proof.
  intros Hk H0 Hstep.
  destruct (range_from_invariant I body (take k cs) st0) as (st1 & Hr & HI); [done | |].
  - intros i c st Hi. apply Hstep. rewrite lookup_take_Some in Hi. tauto.
  - rewrite length_take in HI. exists st1. split; [done |].
    by replace k with (k `min` length cs)%nat at 1 by lia.
Qed.

Lemma range_from_take_S body cs k c st0 :
  cs !! k = Some c ->
  range_from body 0 (take (S k) cs) st0 =
  (range_from body 0 (take k cs) st0 ≫= body k c).
Proof.
  intros Hk. rewrite (take_S_r _ _ _ Hk), range_from_snoc.
  rewrite length_take. apply lookup_lt_Some in Hk.
  by replace (k `min` length cs)%nat with k by lia.
Qed.

End Loops.

(** ** Construction and configuration *)

Section Configuration.

Context {World sysData : Type}.
Implicit Types (s : Stack World sysData) (c : Control World sysData).

Lemma newStack_wf o (cs : list (Control World sysData)) : wf (newStack o cs).
Proof. unfold wf, newStack. simpl. by rewrite !length_replicate. Qed.

Lemma SetStretchy_wf s index s1 : wf s -> SetStretchy s index = Returns s1 -> wf s1.
Proof.
  unfold SetStretchy, slice_set, wf. intros (H1 & H2 & H3).
  destruct (created s); [discriminate |].
  destruct (_ || _); [discriminate |].
  destruct (decide _); simpl; [| discriminate].
  intros [= <-]. simpl. by rewrite length_insert.
Qed.

Lemma make_wf s window w s1 w1 err :
  wf s -> make s window w = (s1, w1, err) -> wf s1.
Proof.
  unfold make. destruct (make_from window 0 (controls s) w) as [w2 [e |]];
    intros Hwf [= <- _ _]; exact Hwf.
Qed.

Lemma make_from_succeeds window cs i w :
  (forall j c, cs !! j = Some c ->
     (c_make c window (realized window (take j cs) w)).2 = None) ->
  make_from window i cs w = (realized window cs w, None).
Proof.
  revert i w. induction cs as [| c cs IH]; intros i w Hok; simpl; [done |].
  pose proof (Hok 0%nat c eq_refl) as H0. simpl in H0.
  unfold realized at 1. simpl.
  destruct (c_make c window w) as [w1 err] eqn:E. simpl in *. subst err.
  apply IH. intros j c1 Hj. specialize (Hok (S j) c1 Hj).
  simpl in Hok. unfold realized in Hok. simpl in Hok. by rewrite E in Hok.
Qed.

Lemma make_from_fails window pre c post i w w1 e :
  (forall j c1, pre !! j = Some c1 ->
     (c_make c1 window (realized window (take j pre) w)).2 = None) ->
  c_make c window (realized window pre w) = (w1, Some e) ->
  make_from window i (pre ++ c :: post) w =
    (w1, Some ("error adding control " +:+ GoInt.fmt_d (Z.of_nat (i + length pre))
               +:+ " to Stack: " +:+ e)).
Proof.
  revert i w. induction pre as [| c0 pre IH]; intros i w Hok Hc; simpl.
  - unfold realized in Hc. simpl in Hc. rewrite Hc. by rewrite Nat.add_0_r.
  - pose proof (Hok 0%nat c0 eq_refl) as H0. simpl in H0.
    destruct (c_make c0 window w) as [w0 err] eqn:E. simpl in H0. subst err.
    replace (i + S (length pre))%nat with (S i + length pre)%nat by lia.
    apply IH.
    + intros j c1 Hj. specialize (Hok (S j) c1 Hj).
      simpl in Hok. unfold realized in Hok. simpl in Hok. by rewrite E in Hok.
    + unfold realized in Hc. simpl in Hc. by rewrite E in Hc.
Qed.

Lemma make_from_nil_inv window cs i w w1 :
  make_from window i cs w = (w1, None) ->
  w1 = realized window cs w /\
  forall j c, cs !! j = Some c ->
    (c_make c window (realized window (take j cs) w)).2 = None.
Proof.
  revert i w w1. induction cs as [| c cs IH]; intros i w w1; simpl.
  - intros [= <-]. split; [done |]. intros j c Hj. by destruct j.
  - unfold realized. simpl.
    destruct (c_make c window w) as [w0 err] eqn:E.
    destruct err as [e |]; [discriminate |].
    intros H. apply IH in H as [-> Hok]. split; [done |].
    intros [| j] c1 Hj; simpl in *.
    + injection Hj as <-. by rewrite E.
    + rewrite E. simpl. by apply Hok.
Qed.

End Configuration.

(** C4: [SetStretchy] panics when [index] equals [len(controls)] or is
    negative, panics when the Stack has been created -- also after a [make]
    that returned no error, and also with an index in range --, and otherwise,
    before realization and with [0 <= index < len(controls)], returns with the
    flag at [index] set and nothing else changed.  The panic at
    [index = len(controls)] is the run-time panic of the slice assignment: the
    guard of the source lets that index through. *)
Theorem SetStretchy_contract {World sysData : Type} (s : Stack World sysData) (index : Z) :
  wf s ->
  (index = Z.of_nat (length (controls s)) \/ index < 0 -> panics (SetStretchy s index)) /\
  (created s = false -> index = Z.of_nat (length (controls s)) ->
     SetStretchy s index
     = Panics (IndexOutOfRange (length (controls s)) (length (controls s)))) /\
  (created s = true -> panics (SetStretchy s index)) /\
  (forall window w s1 w1, make s window w = (s1, w1, None) ->
     panics (SetStretchy s1 index)) /\
  (created s = false -> 0 <= index < Z.of_nat (length (controls s)) ->
     exists s1, SetStretchy s index = Returns s1 /\
       stretchy s1 !! Z.to_nat index = Some true /\
       (forall j, j <> Z.to_nat index -> stretchy s1 !! j = stretchy s !! j) /\
       created s1 = false /\ s_orientation s1 = s_orientation s /\
       controls s1 = controls s /\ width s1 = width s /\ height s1 = height s).
Proof.
  intros (Hlen & _ & _).
  assert (Hcr : created s = true -> panics (SetStretchy s index)).
  { intros Hc. unfold SetStretchy. rewrite Hc. by eexists. }
  assert (Heq : created s = false -> index = Z.of_nat (length (controls s)) ->
            SetStretchy s index
            = Panics (IndexOutOfRange (length (controls s)) (length (controls s)))).
  { intros Hc ->. unfold SetStretchy. rewrite Hc, Hlen.
    replace (Z.of_nat (length (controls s)) <? 0) with false by (symmetry; apply Z.ltb_ge; lia).
    replace (Z.of_nat (length (controls s)) >? Z.of_nat (length (controls s))) with false
      by (symmetry; rewrite Z.gtb_ltb; apply Z.ltb_ge; lia).
    simpl. rewrite Nat2Z.id, slice_set_Panics by lia. by rewrite Hlen. }
  split; [| split; [done | split; [done | split]]].
  - intros [Hi | Hi].
    + destruct (created s) eqn:Hc; [by apply Hcr |]. rewrite Heq by done. by eexists.
    + unfold SetStretchy. destruct (created s); [by eexists |].
      replace (index <? 0) with true by (symmetry; apply Z.ltb_lt; lia).
      simpl. by eexists.
  - intros window w s1 w1 Hm. unfold make in Hm.
    destruct (make_from window 0 (controls s) w) as [w2 [e |]]; [discriminate |].
    injection Hm as <- <-. unfold SetStretchy. simpl. by eexists.
  - intros Hc Hi. unfold SetStretchy. rewrite Hc, Hlen.
    replace (index <? 0) with false by (symmetry; apply Z.ltb_ge; lia).
    replace (index >? Z.of_nat (length (controls s))) with false
      by (symmetry; rewrite Z.gtb_ltb; apply Z.ltb_ge; lia).
    simpl. rewrite slice_set_Returns by lia. simpl.
    eexists. split; [done |]. simpl. repeat split; try done.
    + apply list_lookup_insert_eq. lia.
    + intros j Hj. by apply list_lookup_insert_ne.
Qed.

Lemma SetStretchy_contract_witness :
  let s : Stack unit unit := newStack horizontal [leaf 1 10 5; leaf 2 20 7] in
  panics (SetStretchy s 2) /\ panics (SetStretchy s (-1)) /\
  (exists s1, SetStretchy s 1 = Returns s1 /\ stretchy s1 !! 1%nat = Some true) /\
  panics (SetStretchy (make s tt tt).1.1 1).
Proof.
  intros s.
  destruct (SetStretchy_contract s 2 (newStack_wf _ _)) as (H1 & _).
  destruct (SetStretchy_contract s (-1) (newStack_wf _ _)) as (H2 & _).
  destruct (SetStretchy_contract s 1 (newStack_wf _ _)) as (_ & _ & _ & H3 & H4).
  split; [apply H1; left; reflexivity |].
  split; [apply H2; right; lia |].
  split.
  - destruct H4 as (s1 & Hs & Hf & _); [reflexivity | simpl; lia |].
    exists s1. split; [exact Hs | exact Hf].
  - apply (H3 tt tt _ tt). reflexivity.
Defined.

(** C5: [make] calls [make] on the children in order and stops at the first
    one that fails: the error names its index, the world is the one that
    child's [make] left (the children before it stay realized, nothing is
    undone, no later child is called) and the Stack is unchanged, so
    [created] keeps its value; when every child succeeds, and only then,
    [created] is set and no error is returned. *)
Theorem make_contract {World sysData : Type} (s : Stack World sysData)
    (window : sysData) (w : World) :
  (forall pre c post w1 e,
     controls s = pre ++ c :: post ->
     (forall j c1, pre !! j = Some c1 ->
        (c_make c1 window (realized window (take j pre) w)).2 = None) ->
     c_make c window (realized window pre w) = (w1, Some e) ->
     make s window w =
       (s, w1, Some ("error adding control " +:+ GoInt.fmt_d (Z.of_nat (length pre))
                     +:+ " to Stack: " +:+ e))) /\
  ((forall j c, controls s !! j = Some c ->
      (c_make c window (realized window (take j (controls s)) w)).2 = None) ->
   make s window w = (with_created s true, realized window (controls s) w, None)) /\
  (forall s1 w1, make s window w = (s1, w1, None) ->
     created s1 = true /\ w1 = realized window (controls s) w /\
     forall j c, controls s !! j = Some c ->
       (c_make c window (realized window (take j (controls s)) w)).2 = None) /\
  (forall s1 w1 e, make s window w = (s1, w1, Some e) -> s1 = s).
Proof.
  split; [| split; [| split]].
  - intros pre c post w1 e Hcs Hok Hc. unfold make.
    rewrite Hcs, (make_from_fails window pre c post 0 w w1 e Hok Hc). done.
  - intros Hok. unfold make. by rewrite (make_from_succeeds window _ 0 w Hok).
  - intros s1 w1. unfold make.
    destruct (make_from window 0 (controls s) w) as [w2 [e |]] eqn:E; [discriminate |].
    intros [= <- <-]. apply make_from_nil_inv in E as [-> Hok]. done.
  - intros s1 w1 e. unfold make.
    destruct (make_from window 0 (controls s) w) as [w2 [e2 |]]; [| discriminate].
    by intros [= <- _ _].
Qed.

Lemma make_contract_witness :
  let bad := newStack horizontal [widget 1 10 5 None; widget 2 20 7 (Some "no display"); widget 3 30 6 None] in
  let good := newStack horizontal [widget 1 10 5 None; widget 3 30 6 None] in
  make bad tt [] = (bad, [1%nat; 2%nat], Some "error adding control 1 to Stack: no display") /\
  make good tt [] = (with_created good true, [1%nat; 3%nat], None).
Proof.
  intros bad good. split.
  - destruct (make_contract bad tt []) as (H & _).
    apply (H [widget 1 10 5 None] (widget 2 20 7 (Some "no display")) [widget 3 30 6 None]).
    + reflexivity.
    + intros [| j] c1 Hj; simpl in Hj; [| done]. by injection Hj as <-.
    + reflexivity.
  - destruct (make_contract good tt []) as (_ & H & _).
    apply H. intros [| [| j]] c Hj; simpl in Hj; try done; by injection Hj as <-.
Defined.

(** C7: a Stack without controls -- the shared [space] among them, also when
    seen as the control [Space()] -- has preferred size (0, 0) whatever the
    sizing context, and its [allocate] returns no allocation whatever the
    offered rectangle, leaving the Stack and the sizing context, margins
    included, as they were. *)
Theorem empty_stack_is_inert {World sysData : Type} (s : Stack World sysData)
    (x y wid ht : Z) (d : sysSizeData) :
  controls s = [] ->
  preferredSize s d = Returns (0, 0) /\
  allocate s x y wid ht d = Returns ([], s, d) /\
  controls (@space World sysData) = [] /\
  (forall ref, c_preferredSize (@Space World sysData ref) d = (0, 0) /\
               c_allocate (@Space World sysData ref) x y wid ht d = ([], d)).
Proof.
  intros Hs. unfold preferredSize, allocate. rewrite Hs. simpl. done.
Qed.

Lemma empty_stack_is_inert_witness :
  let d := mkSizeData 7 9 3 4 in
  preferredSize (@space unit unit) d = Returns (0, 0) /\
  allocate (@space unit unit) 5 6 640 480 d = Returns ([], space, d).
Proof.
  intros d.
  destruct (empty_stack_is_inert (@space unit unit) 5 6 640 480 d eq_refl) as (H1 & H2 & _).
  split; [exact H1 | exact H2].
Defined.

(** ** Lists of flagged controls *)

Section Flagged.

Context {World sysData : Type}.
Implicit Types (s : Stack World sysData) (c : Control World sysData).
Implicit Types (l : list (Control World sysData * bool)).

Lemma flagged_lookup s i c b :
  controls s !! i = Some c -> stretchy s !! i = Some b -> flagged s !! i = Some (c, b).
Proof.
  intros Hc Hb. unfold flagged. apply lookup_zip_with_Some. by exists c, b.
Qed.

Lemma flagged_take_S s i c b :
  controls s !! i = Some c -> stretchy s !! i = Some b ->
  take (S i) (flagged s) = take i (flagged s) ++ [(c, b)].
Proof. intros Hc Hb. apply take_S_r. by apply flagged_lookup. Qed.

Lemma flagged_length s : wf s -> length (flagged s) = length (controls s).
Proof. intros (H & _). unfold flagged. rewrite length_zip. lia. Qed.

Lemma flagged_take_all s : wf s -> take (length (controls s)) (flagged s) = flagged s.
Proof. intros H. apply take_ge. by rewrite flagged_length. Qed.

Lemma flagged_fst s : wf s -> (flagged s).*1 = controls s.
Proof. intros (H & _). unfold flagged. apply fst_zip. lia. Qed.

Lemma stretchy_lookup_wf s i c :
  wf s -> controls s !! i = Some c -> exists b, stretchy s !! i = Some b.
Proof.
  intros (H & _) Hc. apply lookup_lt_Some in Hc.
  destruct (lookup_lt_is_Some_2 (stretchy s) i) as [b Hb]; [lia | by exists b].
Qed.

Lemma select_snoc b1 l c b :
  select b1 (l ++ [(c, b)]) = select b1 l ++ (if decide (b = b1) then [c] else []).
Proof.
  unfold select. rewrite filter_app, fmap_app. f_equal.
  rewrite filter_cons. simpl. by destruct (decide (b = b1)).
Qed.



Lemma select_length_le b l : (length (select b l) <= length l)%nat.
Proof. unfold select. rewrite length_fmap. apply length_filter. Qed.

Lemma sum_Z_snoc (l : list Z) x : sum_Z (l ++ [x]) = sum_Z l + x.
Proof. unfold sum_Z. induction l as [| y l IH]; simpl; lia. Qed.

Lemma max_from_zero_snoc (l : list Z) x :
  max_from_zero (l ++ [x]) = Z.max (max_from_zero l) x.
Proof. unfold max_from_zero. induction l as [| y l IH]; simpl; lia. Qed.

Lemma max_from_zero_nonneg (l : list Z) : 0 <= max_from_zero l.
Proof. unfold max_from_zero. induction l as [| y l IH]; simpl; lia. Qed.




End Flagged.

(** ** preferredSize *)

Section PreferredSize.

Context {World sysData : Type}.
Implicit Types (s : Stack World sysData) (c : Control World sysData).

Lemma tally_body_step s d i c st :
  wf s -> controls s !! i = Some c -> tallied s d i st ->
  exists st1, tally_body s d i c st = Returns st1 /\ tallied s d (S i) st1.
Proof.
  intros Hwf Hc (Hn & Hm & Hp & Hx).
  destruct (stretchy_lookup_wf s i c Hwf Hc) as [b Hb].
  unfold tally_body. destruct (c_preferredSize c d) as [w h] eqn:E.
  rewrite (slice_get_Returns _ _ _ Hb). simpl.
  unfold tallied. rewrite (flagged_take_S s i c b Hc Hb).
  rewrite !select_snoc, fmap_app. simpl.
  unfold primary_extents, cross_extents in *. rewrite !fmap_app.
  unfold primary, cross in *.
  destruct b, (s_orientation s); simpl in *; rewrite ?E; simpl;
    eexists; (split; [reflexivity |]); simpl;
    rewrite ?app_nil_r, ?length_app, ?sum_Z_snoc, ?max_from_zero_snoc, ?max_is_Zmax;
    simpl; rewrite ?Hn, ?Hm, ?Hp, ?Hx; gowrap;
    repeat split; try reflexivity; try (f_equal; lia).
Qed.

(** The result of [preferredSize] in closed form, whatever the sign of the
    children's preferred extents. *)
Lemma preferredSize_closed_form s d :
  wf s -> controls s <> [] ->
  let o := s_orientation s in
  exists pw ph, preferredSize s d = Returns (pw, ph) /\
    primary o (pw, ph)
      = GoInt.wrap ((Z.of_nat (length (controls s)) - 1) * primary o (padding d)
                    + sum_Z (primary_extents o d (select false (flagged s)))
                    + Z.of_nat (length (select true (flagged s)))
                      * max_from_zero (primary_extents o d (select true (flagged s)))) /\
    cross o (pw, ph) = max_from_zero (cross_extents o d (controls s)).
Proof.
  intros Hwf Hne o. unfold preferredSize.
  destruct (controls s) as [| c0 cs0] eqn:Hcs; [done |].
  rewrite <- Hcs. replace (length (controls s) =? 0)%nat with false
    by (rewrite Hcs; reflexivity).
  match goal with |- context [range_from _ _ _ ?st0] => set (init := st0) end.
  destruct (range_from_invariant (tallied s d) (tally_body s d) (controls s) init)
    as (st & Hr & Hn & Hm & Hp & Hx).
  - unfold tallied, init, primary, cross, max_from_zero. simpl.
    destruct (s_orientation s); simpl; gowrap;
      repeat split; try reflexivity; f_equal; unfold sum_Z; simpl; lia.
  - intros i c st Hc Hi. by apply tally_body_step.
  - rewrite Hr. simpl. rewrite (flagged_take_all s Hwf) in *.
    rewrite (flagged_fst s Hwf) in Hx. fold o in Hm, Hp, Hx.
    unfold primary, cross in *. subst o.
    destruct (s_orientation s); simpl in *; eexists _, _;
      (split; [reflexivity |]); simpl; rewrite Hn, Hm, Hp, Hx; gowrap;
      split; try reflexivity; f_equal; lia.
Qed.

Lemma preferredSize_returns s d : wf s -> returns (preferredSize s d).
Proof.
  intros Hwf. destruct (controls s) as [| c0 cs0] eqn:Hcs.
  - unfold preferredSize. rewrite Hcs. by eexists.
  - destruct (preferredSize_closed_form s d Hwf) as (pw & ph & H & _).
    + by rewrite Hcs.
    + by exists (pw, ph).
Qed.

End PreferredSize.




(** ** allocate: the sizes of the controls *)

Section Sizes.

Context {World sysData : Type}.
Implicit Types (s : Stack World sysData) (c : Control World sysData).

Lemma cached_insert_ne o ws hs i j wv hv p x :
  i <> j -> cached o ws hs j p x -> cached o (<[i:=wv]> ws) (<[i:=hv]> hs) j p x.
Proof.
  intros Hij (wv1 & hv1 & Hw & Hh & Hp & Hx). exists wv1, hv1.
  by rewrite !list_lookup_insert_ne.
Qed.

Lemma cached_insert_eq o ws hs i wv hv :
  (i < length ws)%nat -> (i < length hs)%nat ->
  cached o (<[i:=wv]> ws) (<[i:=hv]> hs) i (primary o (wv, hv)) (cross o (wv, hv)).
Proof.
  intros Hw Hh. exists wv, hv. by rewrite !list_lookup_insert_eq.
Qed.


Lemma measure_body_step s d1 wid ht i c st :
  wf s -> controls s !! i = Some c -> measured s d1 wid ht i st ->
  exists st1, measure_body s d1 wid ht i c st = Returns st1 /\
              measured s d1 wid ht (S i) st1.
Proof.
  intros Hwf Hc (Hlw & Hlh & Hn & Hp & Hx & Hcache).
  destruct (stretchy_lookup_wf s i c Hwf Hc) as [b Hb].
  pose proof (lookup_lt_Some _ _ _ Hc) as Hi.
  unfold measure_body. rewrite (slice_get_Returns _ _ _ Hb). simpl.
  unfold measured. rewrite (flagged_take_S s i c b Hc Hb), !select_snoc.
  unfold primary_extents in *. rewrite !fmap_app.
  destruct b; simpl.
  - eexists. split; [reflexivity |]. simpl.
    rewrite ?app_nil_r, length_app, Hn. simpl. gowrap.
    repeat split; try done.
    + f_equal. lia.
    + intros j c1 Hj Hc1 Hb1. apply Hcache; try done.
      assert (j <> i) by (intros ->; congruence). lia.
  - destruct (c_preferredSize c d1) as [w h] eqn:E.
    assert (Hstep : forall j c1, (j < S i)%nat -> controls s !! j = Some c1 ->
              stretchy s !! j = Some false -> forall wv hv,
              primary (s_orientation s) (wv, hv) = primary (s_orientation s) (w, h) ->
              cross (s_orientation s) (wv, hv) = cross (s_orientation s) (wid, ht) ->
              cached (s_orientation s) (<[i:=wv]> (sz_width st)) (<[i:=hv]> (sz_height st))
                j (primary (s_orientation s) (c_preferredSize c1 d1))
                (cross (s_orientation s) (wid, ht))).
    { intros j c1 Hj Hc1 Hb1 wv hv Hpv Hxv. destruct (decide (j = i)) as [-> | Hne].
      - assert (c1 = c) as -> by congruence. rewrite E, <- Hpv, <- Hxv.
        apply cached_insert_eq; lia.
      - apply cached_insert_ne; [done |]. apply Hcache; [lia | done | done]. }
    unfold primary, cross in *.
    destruct (s_orientation s); simpl in *;
      rewrite !slice_set_Returns by lia; simpl;
      eexists; (split; [reflexivity |]); simpl;
      rewrite ?length_insert, ?app_nil_r, ?sum_Z_snoc, ?Hp, ?Hx; simpl; gowrap;
      repeat split; try done; try (f_equal; lia);
      intros j c1 Hj Hc1 Hb1; by apply Hstep.
Qed.

Lemma stretch_body_step s d1 wid ht st1 i c st :
  wf s -> controls s !! i = Some c -> stretched s d1 wid ht st1 i st ->
  exists st2, stretch_body s i c st = Returns st2 /\ stretched s d1 wid ht st1 (S i) st2.
Proof.
  intros Hwf Hc (Hlw & Hlh & Hsw & Hsh & Hfix & Hdone).
  destruct (stretchy_lookup_wf s i c Hwf Hc) as [b Hb].
  pose proof (lookup_lt_Some _ _ _ Hc) as Hi.
  unfold stretch_body. rewrite (slice_get_Returns _ _ _ Hb). simpl.
  destruct b; simpl.
  - rewrite !slice_set_Returns by lia. simpl.
    eexists. split; [reflexivity |]. unfold stretched. simpl.
    rewrite !length_insert. repeat split; try done.
    + intros j c1 Hc1 Hb1. apply cached_insert_ne; [| by apply Hfix].
      intros ->. congruence.
    + destruct (decide (j = i)) as [-> | Hne].
      * rewrite list_lookup_insert_eq by lia. by rewrite Hsw.
      * rewrite list_lookup_insert_ne by done. apply Hdone; [lia | done].
    + destruct (decide (j = i)) as [-> | Hne].
      * rewrite list_lookup_insert_eq by lia. by rewrite Hsh.
      * rewrite list_lookup_insert_ne by done. apply Hdone; [lia | done].
  - exists st. split; [done |]. unfold stretched. repeat split; try done.
    all: assert (j <> i) by (intros ->; congruence); apply Hdone; [lia | done].
Qed.

(** Steps 1 and 2 return, and leave in the caches, for a non-stretchy
    control, its preferred extent along the primary axis, for a stretchy
    control the share, and for both the offered extent along the cross
    axis. *)
Lemma resolve_sizes_spec s wid ht d1 :
  wf s -> GoInt.is_int wid -> GoInt.is_int ht ->
  let o := s_orientation s in
  let rest := GoInt.wrap (primary o (wid, ht)
                          - sum_Z (primary_extents o d1 (select false (flagged s)))) in
  let n := GoInt.wrap (Z.of_nat (length (select true (flagged s)))) in
  exists st2, resolve_sizes s wid ht d1 = Returns st2 /\
    length (sz_width st2) = length (controls s) /\
    length (sz_height st2) = length (controls s) /\
    (forall j c, controls s !! j = Some c -> stretchy s !! j = Some false ->
       cached o (sz_width st2) (sz_height st2) j
              (primary o (c_preferredSize c d1)) (cross o (wid, ht))) /\
    (forall j, stretchy s !! j = Some true ->
       cached o (sz_width st2) (sz_height st2) j (share_of rest n) (cross o (wid, ht))).
Proof.
  intros Hwf Hwid Hht o rest n. unfold resolve_sizes.
  destruct (range_from_invariant (measured s d1 wid ht) (measure_body s d1 wid ht)
              (controls s) (mkSizing (width s) (height s) wid ht 0))
    as (st1 & Hr1 & Hlw & Hlh & Hn & Hp & Hx & Hcache).
  - destruct Hwf as (_ & Hw & Hh). unfold measured. simpl.
    repeat split; try done.
    + unfold sum_Z. simpl. rewrite Z.sub_0_r, wrap_id; [done |].
      unfold primary. by destruct (Bool.eqb _ _).
    + intros j c Hj. lia.
  - intros i c st Hc Hi. by apply measure_body_step.
  - rewrite Hr1. simpl. rewrite (flagged_take_all s Hwf) in *.
    fold o in Hp, Hx, Hcache. fold rest in Hp. fold n in Hn.
    destruct (range_from_invariant (stretched s d1 wid ht st1) (stretch_body s)
                (controls s) (split_rest s st1))
      as (st2 & Hr2 & Hlw2 & Hlh2 & Hsw & Hsh & Hfix & Hdone).
    + unfold stretched. repeat split; try done.
      * unfold split_rest. destruct (negb _); [destruct (Bool.eqb _ _) |]; done.
      * unfold split_rest. destruct (negb _); [destruct (Bool.eqb _ _) |]; done.
      * intros j c Hc Hb. unfold split_rest.
        destruct (negb _); [destruct (Bool.eqb _ _) |]; simpl;
          apply Hcache; try done; by eapply lookup_lt_Some.
      * lia.
      * lia.
    + intros i c st Hc Hi. by eapply stretch_body_step.
    + exists st2. split; [done |]. split; [done |]. split; [done |]. split; [done |].
      intros j Hb.
      assert (j < length (controls s))%nat as Hj.
      { destruct Hwf as (Hl & _). rewrite <- Hl. by eapply lookup_lt_Some. }
      destruct (Hdone j Hj Hb) as [Hw Hh].
      eexists _, _. split; [exact Hw |]. split; [exact Hh |].
      unfold split_rest, share_of. rewrite Hn.
      unfold primary, cross in *. subst o.
      destruct (n =? 0); simpl; [done |].
      destruct (s_orientation s); simpl in *; by rewrite ?Hp, ?Hx.
Qed.

End Sizes.

(** ** allocate: the placement loop and the whole function *)

Section Placement.

Context {World sysData : Type}.
Implicit Types (s : Stack World sysData) (c : Control World sysData).

Lemma link_current_length s c st :
  length (link_current s c st) = length (allocations st).
Proof.
  unfold link_current. destruct (Bool.eqb _ _); [| done].
  destruct (current st); [apply length_alter | done].
Qed.

(** One iteration of the third loop. *)
Lemma place_body_spec s ws hs i c st w h :
  ws !! i = Some w -> hs !! i = Some h ->
  let o := s_orientation s in
  let r := c_allocate c (pl_x st) (pl_y st) w h (pl_d st) in
  exists st1, place_body s ws hs i c st = Returns st1 /\
    pl_d st1 = r.2 /\
    primary o (pl_x st1, pl_y st1)
      = GoInt.add (primary o (pl_x st, pl_y st))
                  (GoInt.add (primary o (w, h)) (primary o (padding r.2))) /\
    cross o (pl_x st1, pl_y st1) = cross o (pl_x st, pl_y st) /\
    allocations st1 = link_current s c st ++ r.1 /\
    current st1 = (if Bool.eqb o horizontal then
                     if r.1 is [] then None else Some (length (allocations st))
                   else current st).
Proof.
  intros Hw Hh o r. unfold place_body.
  rewrite (slice_get_Returns _ _ _ Hw), (slice_get_Returns _ _ _ Hh). simpl.
  subst r. destruct (c_allocate c (pl_x st) (pl_y st) w h (pl_d st)) as [as_ d1].
  pose proof (link_current_length s c st) as Hlen.
  unfold link_current, primary, cross, padding in *. subst o.
  destruct (s_orientation s); simpl in *;
    eexists; (split; [reflexivity |]); simpl; repeat split; try done.
  rewrite Hlen. by destruct as_.
Qed.

Lemma inset_width_is_int s wid d : GoInt.is_int (inset_width s wid d).
Proof. unfold inset_width. destruct (Bool.eqb _ _); apply wrap_is_int. Qed.

Lemma inset_height_is_int s ht d : GoInt.is_int (inset_height s ht d).
Proof. unfold inset_height. destruct (Bool.eqb _ _); apply wrap_is_int. Qed.

Lemma inset_primary s wid ht d :
  primary (s_orientation s) (inset_width s wid d, inset_height s ht d)
  = offered_primary s wid ht d.
Proof.
  unfold offered_primary, inset_width, inset_height, primary, margin, padding.
  destruct (s_orientation s); simpl; gowrap; reflexivity.
Qed.

Lemma inset_cross s wid ht d :
  cross (s_orientation s) (inset_width s wid d, inset_height s ht d)
  = offered_cross s wid ht d.
Proof.
  unfold offered_cross, inset_width, inset_height, cross, margin.
  destruct (s_orientation s); simpl; gowrap; reflexivity.
Qed.

(** The third loop returns after any number of iterations, once the caches
    are as long as [controls]. *)
Lemma place_prefix_returns s ws hs st0 k :
  length ws = length (controls s) -> length hs = length (controls s) ->
  (k <= length (controls s))%nat ->
  returns (range_from (place_body s ws hs) 0 (take k (controls s)) st0).
Proof.
  intros Hw Hh Hk.
  destruct (range_from_take_invariant (fun _ _ => True) (place_body s ws hs)
              (controls s) st0 k) as (st & Hr & _); [done | done | | by exists st].
  intros i c st Hc _. apply lookup_lt_Some in Hc.
  destruct (lookup_lt_is_Some_2 ws i) as [w Hwi]; [lia |].
  destruct (lookup_lt_is_Some_2 hs i) as [h Hhi]; [lia |].
  destruct (place_body_spec s ws hs i c st w h Hwi Hhi) as (st1 & H1 & _).
  by exists st1.
Qed.

(** [allocate] on a Stack with controls: it returns; the caches it leaves
    are those of steps 1 and 2; the slice and the sizing context it
    returns are those of the third loop after all its iterations. *)
Lemma allocate_spec s x y wid ht d :
  wf s -> controls s <> [] ->
  let o := s_orientation s in
  let d1 := steal_margins d in
  let n := GoInt.wrap (Z.of_nat (length (select true (flagged s)))) in
  exists st2 st3,
    resolve_sizes s (inset_width s wid d) (inset_height s ht d) d1 = Returns st2 /\
    placing_after s x y wid ht d (length (controls s)) = Returns st3 /\
    allocate s x y wid ht d
      = Returns (allocations st3, with_caches s (sz_width st2) (sz_height st2), pl_d st3) /\
    length (sz_width st2) = length (controls s) /\
    length (sz_height st2) = length (controls s) /\
    (forall j c, controls s !! j = Some c -> stretchy s !! j = Some false ->
       cached o (sz_width st2) (sz_height st2) j
              (primary o (c_preferredSize c d1)) (offered_cross s wid ht d)) /\
    (forall j, stretchy s !! j = Some true ->
       cached o (sz_width st2) (sz_height st2) j
              (share_of (rest_for_stretchy s wid ht d) n) (offered_cross s wid ht d)).
Proof.
  intros Hwf Hne o d1 n.
  destruct (resolve_sizes_spec s (inset_width s wid d) (inset_height s ht d) d1 Hwf
              (inset_width_is_int s wid d) (inset_height_is_int s ht d))
    as (st2 & Hr & Hlw & Hlh & Hfix & Hstr).
  rewrite inset_primary, inset_cross in *.
  destruct (place_prefix_returns s (sz_width st2) (sz_height st2)
              (mkPlacing (GoInt.add x (xmargin d)) (GoInt.add y (ymargin d)) None [] d1)
              (length (controls s)) Hlw Hlh (le_n _)) as [st3 Hp].
  exists st2, st3. split; [done |]. split; [| split].
  - unfold placing_after. fold d1. rewrite Hr. simpl. exact Hp.
  - unfold allocate. destruct (controls s) as [| c0 cs0] eqn:Hcs; [done |].
    rewrite <- Hcs in *. replace (length (controls s) =? 0)%nat with false
      by (rewrite Hcs; reflexivity).
    fold d1. rewrite Hr. simpl. rewrite firstn_all in Hp. rewrite Hp. done.
  - repeat split; done.
Qed.

Lemma allocate_returns s x y wid ht d : wf s -> returns (allocate s x y wid ht d).
Proof.
  intros Hwf. destruct (controls s) as [| c0 cs0] eqn:Hcs.
  - unfold allocate. rewrite Hcs. by eexists.
  - destruct (allocate_spec s x y wid ht d Hwf) as (st2 & st3 & _ & _ & H & _).
    + by rewrite Hcs.
    + by eexists.
Qed.

Lemma allocate_wf s x y wid ht d allocs s1 d2 :
  wf s -> allocate s x y wid ht d = Returns (allocs, s1, d2) ->
  wf s1 /\ created s1 = created s /\ s_orientation s1 = s_orientation s /\
  controls s1 = controls s /\ stretchy s1 = stretchy s.
Proof.
  intros Hwf Ha. destruct (controls s) as [| c0 cs0] eqn:Hcs.
  - unfold allocate in Ha. rewrite Hcs in Ha. simpl in Ha.
    injection Ha as <- <- <-. by rewrite Hcs.
  - destruct (allocate_spec s x y wid ht d Hwf)
      as (st2 & st3 & _ & _ & H & Hlw & Hlh & _); [by rewrite Hcs |].
    rewrite H in Ha. injection Ha as <- <- <-. simpl.
    rewrite <- Hcs. repeat split; try done. by destruct Hwf.
Qed.

Lemma placing_after_returns s x y wid ht d k :
  wf s -> (k <= length (controls s))%nat -> returns (placing_after s x y wid ht d k).
Proof.
  intros Hwf Hk. unfold placing_after.
  destruct (resolve_sizes_spec s (inset_width s wid d) (inset_height s ht d)
              (steal_margins d) Hwf
              (inset_width_is_int s wid d) (inset_height_is_int s ht d))
    as (st2 & Hr & Hlw & Hlh & _).
  rewrite Hr. simpl. by apply place_prefix_returns.
Qed.

(** Iteration [k] of the third loop of a call of [allocate] that returned
    the Stack [s1]: the control is handed the cursor and its cached size;
    what it returns is appended; the cursor moves along the primary axis by
    the cached extent plus the padding. *)
Lemma placing_step s x y wid ht d allocs s1 d2 k c st :
  wf s -> allocate s x y wid ht d = Returns (allocs, s1, d2) ->
  controls s !! k = Some c ->
  placing_after s x y wid ht d k = Returns st ->
  let o := s_orientation s in
  let r := child_allocate s1 k c st in
  exists st1, placing_after s x y wid ht d (S k) = Returns st1 /\
    pl_d st1 = r.2 /\
    primary o (pl_x st1, pl_y st1)
      = GoInt.add (primary o (pl_x st, pl_y st))
                  (GoInt.add (primary o (width s1 !!! k, height s1 !!! k))
                             (primary o (padding r.2))) /\
    cross o (pl_x st1, pl_y st1) = cross o (pl_x st, pl_y st) /\
    allocations st1 = link_current s c st ++ r.1 /\
    current st1 = (if Bool.eqb o horizontal then
                     if r.1 is [] then None else Some (length (allocations st))
                   else current st).
Proof.
  intros Hwf Ha Hc Hst o r.
  assert (controls s <> []) as Hne by (intros E; by rewrite E in Hc).
  destruct (allocate_spec s x y wid ht d Hwf Hne)
    as (st2 & st3 & Hr & _ & H & Hlw & Hlh & _).
  rewrite H in Ha. injection Ha as <- <- <-.
  pose proof (lookup_lt_Some _ _ _ Hc) as Hk.
  destruct (lookup_lt_is_Some_2 (sz_width st2) k) as [w Hwk]; [lia |].
  destruct (lookup_lt_is_Some_2 (sz_height st2) k) as [h Hhk]; [lia |].
  subst r. unfold child_allocate. simpl.
  rewrite (list_lookup_total_correct _ _ _ Hwk), (list_lookup_total_correct _ _ _ Hhk).
  destruct (place_body_spec s (sz_width st2) (sz_height st2) k c st w h Hwk Hhk)
    as (st1 & Hb & Hrest).
  exists st1. split; [| exact Hrest].
  unfold placing_after in *. rewrite Hr in *. simpl in *.
  rewrite (range_from_take_S _ _ _ _ _ Hc), Hst. exact Hb.
Qed.

Lemma placing_after_0 s x y wid ht d :
  wf s ->
  placing_after s x y wid ht d 0
  = Returns (mkPlacing (GoInt.add x (xmargin d)) (GoInt.add y (ymargin d)) None []
                       (steal_margins d)).
Proof.
  intros Hwf. unfold placing_after.
  destruct (resolve_sizes_spec s (inset_width s wid d) (inset_height s ht d)
              (steal_margins d) Hwf
              (inset_width_is_int s wid d) (inset_height_is_int s ht d))
    as (st2 & Hr & _).
  by rewrite Hr.
Qed.

Lemma placing_after_all s x y wid ht d allocs s1 d2 :
  wf s -> controls s <> [] -> allocate s x y wid ht d = Returns (allocs, s1, d2) ->
  exists st, placing_after s x y wid ht d (length (controls s)) = Returns st /\
             allocations st = allocs /\ pl_d st = d2.
Proof.
  intros Hwf Hne Ha.
  destruct (allocate_spec s x y wid ht d Hwf Hne) as (st2 & st3 & _ & Hp & H & _).
  rewrite H in Ha. injection Ha as <- <- <-. by exists st3.
Qed.

End Placement.


(** C1: in an [allocate] on a Stack with at least one stretchy control, what
    is left of the offered primary-axis extent -- after the inset by twice
    the margin and by (N-1) * padding, and after the preferred extents of the
    non-stretchy controls have been taken off -- is divided by the number of
    stretchy controls with Go's truncating division, and every stretchy
    control is given that quotient along the primary axis and the full
    offered extent along the cross axis.  In a horizontal Stack of two
    controls, one of them stretchy, with no margin and no padding, the
    stretchy control is given the offered width less the preferred width of
    the other control. *)
Theorem stretchy_controls_share_the_rest {World sysData : Type}
    (s : Stack World sysData) (x y wid ht : Z) (d : sysSizeData) :
  wf s ->
  Z.of_nat (length (controls s)) <= GoInt.max_int ->
  select true (flagged s) <> [] ->
  exists allocs s1 d2, allocate s x y wid ht d = Returns (allocs, s1, d2) /\
    (forall i, stretchy s !! i = Some true ->
       cached (s_orientation s) (width s1) (height s1) i
              (stretchy_share s wid ht d) (offered_cross s wid ht d)) /\
    (forall i c st, stretchy s !! i = Some true -> controls s !! i = Some c ->
       placing_after s x y wid ht d i = Returns st ->
       exists wv hv st1,
         primary (s_orientation s) (wv, hv) = stretchy_share s wid ht d /\
         cross (s_orientation s) (wv, hv) = offered_cross s wid ht d /\
         placing_after s x y wid ht d (S i) = Returns st1 /\
         allocations st1
           = link_current s c st ++ (c_allocate c (pl_x st) (pl_y st) wv hv (pl_d st)).1) /\
    (s_orientation s = horizontal -> length (controls s) = 2%nat ->
     margin d = (0, 0) -> xpadding d = 0 ->
     forall i j c,
       stretchy s !! i = Some true -> stretchy s !! j = Some false ->
       controls s !! j = Some c ->
       width s1 !! i = Some (GoInt.sub wid (c_preferredSize c d).1) /\
       (GoInt.is_int (wid - (c_preferredSize c d).1) ->
        width s1 !! i = Some (wid - (c_preferredSize c d).1))).
Proof.
  intros Hwf Hmax Hsome.
  assert (Hne : controls s <> []).
  { intros E. apply Hsome. unfold flagged. by rewrite E. }
  destruct (allocate_spec s x y wid ht d Hwf Hne)
    as (st2 & st3 & _ & _ & Ha & _ & _ & _ & Hstr).
  set (cnt := Z.of_nat (length (select true (flagged s)))) in *.
  assert (Hcnt : 0 < cnt <= GoInt.max_int).
  { subst cnt. split.
    - destruct (select true (flagged s)); [done | simpl; lia].
    - pose proof (select_length_le true (flagged s)).
      rewrite (flagged_length s Hwf) in *. lia. }
  assert (Hshare : share_of (rest_for_stretchy s wid ht d) (GoInt.wrap cnt)
                   = stretchy_share s wid ht d).
  { rewrite wrap_id by (unfold GoInt.is_int, GoInt.min_int, GoInt.bits; lia).
    unfold share_of, stretchy_share. fold cnt.
    destruct (Z.eqb_spec cnt 0); [lia | done]. }
  rewrite Hshare in Hstr.
  eexists _, _, _. split; [exact Ha |]. simpl. split; [exact Hstr |]. split.
  { intros i c st Hi Hc Hst.
    destruct (Hstr i Hi) as (wv & hv & Hw & Hh & Hp & Hx).
    destruct (placing_step s x y wid ht d _ _ _ i c st Hwf Ha Hc Hst)
      as (st1 & Hst1 & _ & _ & _ & Hal & _).
    exists wv, hv, st1. repeat split; try done.
    unfold child_allocate in Hal. simpl in Hal.
    by rewrite (list_lookup_total_correct _ _ _ Hw),
               (list_lookup_total_correct _ _ _ Hh) in Hal. }
  intros Ho Hlen Hm Hpad i j c Hi Hj Hc.
  destruct (Hstr i Hi) as (wv & hv & Hw & _ & Hp & _).
  rewrite Ho in Hp. change (primary horizontal (wv, hv)) with wv in Hp. subst wv.
  assert (Hd : steal_margins d = d).
  { destruct d as [xm ym xp yp]. unfold margin in Hm. simpl in *. by injection Hm as -> ->. }
  assert (Hval : stretchy_share s wid ht d = GoInt.sub wid (c_preferredSize c d).1).
  { unfold stretchy_share, rest_for_stretchy, offered_primary, flagged, cnt in *.
    rewrite Hd, Ho, Hlen. unfold margin, padding, primary. simpl.
    rewrite Hpad. injection Hm as -> _.
    destruct Hwf as (Hls & _). rewrite Hlen in Hls.
    destruct (controls s) as [| c0 [| c1 [| ? ?]]]; try discriminate.
    destruct (stretchy s) as [| b0 [| b1 [| ? ?]]]; try discriminate.
    destruct i as [| [| i]], j as [| [| j]]; simpl in Hi, Hj, Hc; simplify_eq;
      unfold select, sum_Z; simpl; rewrite quo_one; gowrap;
      unfold primary; simpl; f_equal; lia. }
  rewrite Hval in Hw. split; [exact Hw |].
  intros Hint. rewrite Hw. unfold GoInt.sub. by rewrite wrap_id.
Qed.

Lemma stretchy_controls_share_the_rest_witness :
  let s : Stack unit unit :=
    mkStack false horizontal [leaf 1 10 5; leaf 2 20 7] [false; true] [0; 0] [0; 0] in
  let d := mkSizeData 0 0 0 0 in
  exists allocs s1 d2, allocate s 0 0 100 9 d = Returns (allocs, s1, d2) /\
    width s1 !! 1%nat = Some (100 - 10).
Proof.
  intros s d.
  assert (Hwf : wf s) by (unfold wf; simpl; done).
  assert (Hmax : Z.of_nat (length (controls s)) <= GoInt.max_int) by (vm_compute; discriminate).
  assert (Hsome : select true (flagged s) <> []) by (vm_compute; discriminate).
  destruct (stretchy_controls_share_the_rest s 0 0 100 9 d Hwf Hmax Hsome)
    as (allocs & s1 & d2 & Ha & _ & _ & Hp).
  exists allocs, s1, d2. split; [exact Ha |].
  apply (Hp eq_refl eq_refl eq_refl eq_refl 1%nat 0%nat (leaf 1 10 5));
    try reflexivity.
  vm_compute. split; discriminate.
Defined.

(** ** allocate: neighbors *)

Section Neighbors.

Context {World sysData : Type}.
Implicit Types (s : Stack World sysData) (c : Control World sysData).

(** Induction along the iterations of the third loop, from iteration
    [k0] on. *)
Lemma placing_induction s x y wid ht d allocs s1 d2 (P : nat -> placing -> Prop)
    k0 st0 :
  wf s -> allocate s x y wid ht d = Returns (allocs, s1, d2) ->
  placing_after s x y wid ht d k0 = Returns st0 -> P k0 st0 ->
  (forall k c st st1, (k0 <= k)%nat -> controls s !! k = Some c ->
     placing_after s x y wid ht d k = Returns st -> P k st ->
     placing_after s x y wid ht d (S k) = Returns st1 -> P (S k) st1) ->
  forall m st, (k0 <= m <= length (controls s))%nat ->
    placing_after s x y wid ht d m = Returns st -> P m st.
Proof.
  intros Hwf Ha H0 HP0 Hstep m. induction m as [| m IH]; intros st Hm Hst.
  - assert (k0 = 0)%nat as -> by lia. rewrite H0 in Hst. by injection Hst as <-.
  - destruct (decide (k0 = S m)) as [-> | Hne].
    { rewrite H0 in Hst. by injection Hst as <-. }
    destruct (placing_after_returns s x y wid ht d m Hwf) as [stm Hstm]; [lia |].
    destruct (lookup_lt_is_Some_2 (controls s) m) as [c Hc]; [lia |].
    apply (Hstep m c stm st); try done; [lia |]. apply IH; [lia | done].
Qed.

(** In a vertical Stack [current] stays nil. *)
Lemma vertical_current s x y wid ht d allocs s1 d2 m st :
  wf s -> s_orientation s = vertical ->
  allocate s x y wid ht d = Returns (allocs, s1, d2) ->
  (m <= length (controls s))%nat ->
  placing_after s x y wid ht d m = Returns st -> current st = None.
Proof.
  intros Hwf Ho Ha Hm Hst.
  apply (placing_induction s x y wid ht d allocs s1 d2
           (fun _ st => current st = None) 0%nat _ Hwf Ha (placing_after_0 s x y wid ht d Hwf))
    with (m := m); [done | | lia | done].
  intros k c st0 st1 _ Hc Hst0 Hcur Hst1.
  destruct (placing_step s x y wid ht d allocs s1 d2 k c st0 Hwf Ha Hc Hst0)
    as (st1' & Hst1' & _ & _ & _ & _ & Hcur1).
  rewrite Hst1 in Hst1'. injection Hst1' as <-.
  rewrite Hcur1, Ho. simpl. done.
Qed.

(** What the loop has appended stays in front of what it appends later;
    in a vertical Stack it stays as it is. *)
Lemma vertical_prefix s x y wid ht d allocs s1 d2 k0 st0 m st :
  wf s -> s_orientation s = vertical ->
  allocate s x y wid ht d = Returns (allocs, s1, d2) ->
  placing_after s x y wid ht d k0 = Returns st0 ->
  (k0 <= m <= length (controls s))%nat ->
  placing_after s x y wid ht d m = Returns st ->
  allocations st0 `prefix_of` allocations st.
Proof.
  intros Hwf Ho Ha H0 Hm Hst.
  apply (placing_induction s x y wid ht d allocs s1 d2
           (fun _ st => allocations st0 `prefix_of` allocations st) k0 st0 Hwf Ha H0)
    with (m := m); [done | | done | done].
  intros k c stk st1 _ Hc Hstk Hpre Hst1.
  destruct (placing_step s x y wid ht d allocs s1 d2 k c stk Hwf Ha Hc Hstk)
    as (st1' & Hst1' & _ & _ & _ & Hal & _).
  rewrite Hst1 in Hst1'. injection Hst1' as <-.
  rewrite Hal. unfold link_current. rewrite Ho. simpl.
  by apply prefix_app_r.
Qed.

(** An allocation that lies before the one [current] points to is not
    written to by the rest of the loop. *)
Lemma placing_keeps s x y wid ht d allocs s1 d2 k0 st0 p v m st :
  wf s -> allocate s x y wid ht d = Returns (allocs, s1, d2) ->
  placing_after s x y wid ht d k0 = Returns st0 ->
  allocations st0 !! p = Some v ->
  (forall q, current st0 = Some q -> (p < q)%nat) ->
  (k0 <= m <= length (controls s))%nat ->
  placing_after s x y wid ht d m = Returns st ->
  allocations st !! p = Some v.
Proof.
  intros Hwf Ha H0 Hp Hq Hm Hst.
  apply (placing_induction s x y wid ht d allocs s1 d2
           (fun _ st => allocations st !! p = Some v /\
                        forall q, current st = Some q -> (p < q)%nat)
           k0 st0 Hwf Ha H0) with (m := m); [done | | done | done].
  intros k c stk st1 _ Hc Hstk [Hpk Hqk] Hst1.
  destruct (placing_step s x y wid ht d allocs s1 d2 k c stk Hwf Ha Hc Hstk)
    as (st1' & Hst1' & _ & _ & _ & Hal & Hcur).
  rewrite Hst1 in Hst1'. injection Hst1' as <-.
  pose proof (lookup_lt_Some _ _ _ Hpk) as Hlt.
  split.
  - rewrite Hal, lookup_app_l by (by rewrite link_current_length).
    unfold link_current. destruct (Bool.eqb _ _); [| done].
    destruct (current stk) as [q |] eqn:Hcq; [| done].
    rewrite list_lookup_alter_ne; [done |]. specialize (Hqk q eq_refl). lia.
  - intros q. rewrite Hcur. destruct (Bool.eqb _ _); [| by apply Hqk].
    destruct (child_allocate s1 k c stk).1; [done |]. intros [= <-]. done.
Qed.

End Neighbors.

(** C6: only a horizontal Stack links neighbors.  In a vertical Stack
    [current] stays nil and every iteration of the placement loop only
    appends what the child returned, so the slice [allocate] returns holds
    the children's allocations as they made them.  In a horizontal Stack,
    when a child returns no allocation [current] becomes nil, and the
    iteration of the next child writes to no allocation: it only appends
    what that child returned. *)
Theorem neighbors_only_in_horizontal {World sysData : Type}
    (s : Stack World sysData) (x y wid ht : Z) (d : sysSizeData)
    (allocs : list allocation) (s1 : Stack World sysData) (d2 : sysSizeData) :
  wf s -> allocate s x y wid ht d = Returns (allocs, s1, d2) ->
  (s_orientation s = vertical ->
   forall k c st, controls s !! k = Some c ->
     placing_after s x y wid ht d k = Returns st ->
     current st = None /\
     exists st1, placing_after s x y wid ht d (S k) = Returns st1 /\
       allocations st1 = allocations st ++ (child_allocate s1 k c st).1 /\
       current st1 = None /\
       allocations st1 `prefix_of` allocs) /\
  (s_orientation s = horizontal ->
   forall k c st, controls s !! k = Some c ->
     placing_after s x y wid ht d k = Returns st ->
     (child_allocate s1 k c st).1 = [] ->
     exists st1, placing_after s x y wid ht d (S k) = Returns st1 /\
       current st1 = None /\
       forall c2, controls s !! S k = Some c2 ->
         exists st2, placing_after s x y wid ht d (S (S k)) = Returns st2 /\
           allocations st2 = allocations st1 ++ (child_allocate s1 (S k) c2 st1).1).
Proof.
  intros Hwf Ha. split; intros Ho k c st Hc Hst.
  - pose proof (lookup_lt_Some _ _ _ Hc) as Hk.
    assert (Hne : controls s <> []) by (intros E; by rewrite E in Hc).
    destruct (placing_step s x y wid ht d allocs s1 d2 k c st Hwf Ha Hc Hst)
      as (st1 & Hst1 & _ & _ & _ & Hal & Hcur).
    assert (Hnil : current st = None).
    { apply (vertical_current s x y wid ht d allocs s1 d2 k st Hwf Ho Ha); [lia | done]. }
    split; [done |]. exists st1. split; [done |].
    unfold link_current in Hal. rewrite Ho in Hal, Hcur. simpl in Hal, Hcur.
    split; [done |]. split; [congruence |].
    destruct (placing_after_all s x y wid ht d allocs s1 d2 Hwf Hne Ha)
      as (stN & HstN & <- & _).
    apply (vertical_prefix s x y wid ht d (allocations stN) s1 d2 (S k) st1
             (length (controls s)) stN Hwf Ho Ha Hst1); [lia | done].
  - intros Hempty.
    destruct (placing_step s x y wid ht d allocs s1 d2 k c st Hwf Ha Hc Hst)
      as (st1 & Hst1 & _ & _ & _ & _ & Hcur).
    rewrite Ho, Hempty in Hcur. simpl in Hcur.
    exists st1. split; [done |]. split; [done |].
    intros c2 Hc2.
    destruct (placing_step s x y wid ht d allocs s1 d2 (S k) c2 st1 Hwf Ha Hc2 Hst1)
      as (st2 & Hst2 & _ & _ & _ & Hal2 & _).
    exists st2. split; [done |].
    unfold link_current in Hal2. by rewrite Ho, Hcur in Hal2.
Qed.

(** C10: in a horizontal Stack, when a child has returned at least one
    allocation and another child follows, the iteration of that next child
    sets the [neighbor] of the first of these allocations to the next child,
    the control itself, whatever the next child returns -- none at all, as a
    Space does, included -- and the slice [allocate] returns holds the
    allocation with that neighbor. *)
Theorem neighbor_is_the_next_control {World sysData : Type}
    (s : Stack World sysData) (x y wid ht : Z) (d : sysSizeData)
    (allocs : list allocation) (s1 : Stack World sysData) (d2 : sysSizeData) :
  wf s -> s_orientation s = horizontal ->
  allocate s x y wid ht d = Returns (allocs, s1, d2) ->
  forall k c c2 st a rest,
    controls s !! k = Some c -> controls s !! S k = Some c2 ->
    placing_after s x y wid ht d k = Returns st ->
    (child_allocate s1 k c st).1 = a :: rest ->
    let p := length (allocations st) in
    (exists st1 st2,
       placing_after s x y wid ht d (S k) = Returns st1 /\
       placing_after s x y wid ht d (S (S k)) = Returns st2 /\
       allocations st1 !! p = Some a /\
       allocations st2 !! p = Some (set_neighbor (c_ref c2) a)) /\
    allocs !! p = Some (set_neighbor (c_ref c2) a).
Proof.
  intros Hwf Ho Ha k c c2 st a rest Hc Hc2 Hst Has p.
  assert (Hne : controls s <> []) by (intros E; by rewrite E in Hc).
  destruct (placing_step s x y wid ht d allocs s1 d2 k c st Hwf Ha Hc Hst)
    as (st1 & Hst1 & _ & _ & _ & Hal & Hcur).
  rewrite Ho, Has in Hcur. simpl in Hcur. fold p in Hcur.
  assert (Hp1 : allocations st1 !! p = Some a).
  { rewrite Hal, Has, lookup_app_r by (rewrite link_current_length; subst p; lia).
    rewrite link_current_length. subst p. by rewrite Nat.sub_diag. }
  destruct (placing_step s x y wid ht d allocs s1 d2 (S k) c2 st1 Hwf Ha Hc2 Hst1)
    as (st2 & Hst2 & _ & _ & _ & Hal2 & Hcur2).
  assert (Hp2 : allocations st2 !! p = Some (set_neighbor (c_ref c2) a)).
  { rewrite Hal2, lookup_app_l
      by (rewrite link_current_length; by eapply lookup_lt_Some).
    unfold link_current. rewrite Ho, Hcur. simpl.
    by rewrite list_lookup_alter_eq, Hp1. }
  split; [by exists st1, st2 |].
  destruct (placing_after_all s x y wid ht d allocs s1 d2 Hwf Hne Ha)
    as (stN & HstN & <- & _).
  eapply (placing_keeps s x y wid ht d _ s1 d2 (S (S k)) st2); try done.
  - intros q. rewrite Hcur2, Ho. simpl.
    destruct (child_allocate s1 (S k) c2 st1).1; [done |]. intros [= <-].
    by eapply lookup_lt_Some.
  - apply lookup_lt_Some in Hc2. lia.
Qed.

(** ** allocate: the caches do not carry over *)

Section Caches.

Context {World sysData : Type}.
Implicit Types (s : Stack World sysData) (c : Control World sysData).

Lemma cached_agree o ws hs ws1 hs1 j p x :
  cached o ws hs j p x -> cached o ws1 hs1 j p x ->
  ws !! j = ws1 !! j /\ hs !! j = hs1 !! j.
Proof.
  intros (wv & hv & -> & -> & Hp & Hx) (wv1 & hv1 & -> & -> & Hp1 & Hx1).
  unfold primary, cross in *. destruct (Bool.eqb o horizontal); simpl in *; by subst.
Qed.

Lemma with_caches_wf s ws hs :
  wf s -> length ws = length (controls s) -> length hs = length (controls s) ->
  wf (with_caches s ws hs).
Proof. intros (H & _ & _) Hw Hh. by repeat split. Qed.

Lemma resolve_sizes_caches_irrelevant s ws hs wid ht d1 :
  wf s -> length ws = length (controls s) -> length hs = length (controls s) ->
  GoInt.is_int wid -> GoInt.is_int ht ->
  exists st2 st2',
    resolve_sizes s wid ht d1 = Returns st2 /\
    resolve_sizes (with_caches s ws hs) wid ht d1 = Returns st2' /\
    sz_width st2' = sz_width st2 /\ sz_height st2' = sz_height st2.
Proof.
  intros Hwf Hw Hh Hwid Hht.
  destruct (resolve_sizes_spec s wid ht d1 Hwf Hwid Hht)
    as (st2 & Hr & Hlw & Hlh & Hfix & Hstr).
  destruct (resolve_sizes_spec (with_caches s ws hs) wid ht d1
              (with_caches_wf s ws hs Hwf Hw Hh) Hwid Hht)
    as (st2' & Hr' & Hlw' & Hlh' & Hfix' & Hstr').
  simpl in *. change (flagged (with_caches s ws hs)) with (flagged s) in *.
  exists st2, st2'. split; [done |]. split; [done |].
  assert (forall j, sz_width st2' !! j = sz_width st2 !! j /\
                    sz_height st2' !! j = sz_height st2 !! j) as Hall.
  { intros j. destruct (controls s !! j) as [c |] eqn:Hc.
    - destruct (stretchy_lookup_wf s j c Hwf Hc) as [[|] Hb].
      + eapply cached_agree; [by apply Hstr' | by apply Hstr].
      + eapply cached_agree; [by eapply Hfix' | by eapply Hfix].
    - apply lookup_ge_None in Hc.
      rewrite !(proj2 (lookup_ge_None _ _)); [done | lia..]. }
  split; apply list_eq; intros j; by destruct (Hall j).
Qed.

Lemma allocate_caches_irrelevant s ws hs x y wid ht d :
  wf s -> controls s <> [] ->
  length ws = length (controls s) -> length hs = length (controls s) ->
  allocate (with_caches s ws hs) x y wid ht d = allocate s x y wid ht d.
Proof.
  intros Hwf Hne Hw Hh.
  destruct (resolve_sizes_caches_irrelevant s ws hs
              (inset_width s wid d) (inset_height s ht d) (steal_margins d)
              Hwf Hw Hh (inset_width_is_int s wid d) (inset_height_is_int s ht d))
    as (st2 & st2' & Hr & Hr' & Hsw & Hsh).
  unfold allocate. simpl.
  change (inset_width (with_caches s ws hs) wid d) with (inset_width s wid d).
  change (inset_height (with_caches s ws hs) ht d) with (inset_height s ht d).
  replace (length (controls s) =? 0)%nat with false by (by destruct (controls s)).
  rewrite Hr, Hr'. simpl. rewrite Hsw, Hsh.
  change (place_body (with_caches s ws hs)) with (place_body s).
  by destruct (range_from _ _ _ _).
Qed.

(** [preferredSize] does not read the caches. *)
Lemma preferredSize_caches_irrelevant s ws hs d :
  preferredSize (with_caches s ws hs) d = preferredSize s d.
Proof. reflexivity. Qed.

End Caches.

(** C9: a second [allocate] with the same rectangle and a sizing context of
    the same value, on the Stack as the first call left it, returns what the
    first returned and leaves the Stack as the first did; [preferredSize]
    returns the same on the Stack before and after an [allocate], whatever
    the sizing context (it returns nothing but the two extents: the source
    assigns to no field of the Stack); and [allocate] leaves [controls],
    [stretchy] and the orientation as they were. *)
Theorem layout_is_repeatable {World sysData : Type}
    (s : Stack World sysData) (x y wid ht : Z) (d : sysSizeData)
    (allocs : list allocation) (s1 : Stack World sysData) (d2 : sysSizeData) :
  wf s -> allocate s x y wid ht d = Returns (allocs, s1, d2) ->
  allocate s1 x y wid ht d = Returns (allocs, s1, d2) /\
  (forall d', preferredSize s1 d' = preferredSize s d') /\
  controls s1 = controls s /\ stretchy s1 = stretchy s /\
  s_orientation s1 = s_orientation s.
Proof.
  intros Hwf Ha.
  destruct (allocate_wf s x y wid ht d allocs s1 d2 Hwf Ha) as (_ & _ & Ho & Hc & Hs).
  split; [| by repeat split; try done; intros d'; unfold preferredSize, tally_body;
              rewrite ?Ho, ?Hc, ?Hs].
  destruct (controls s) as [| c0 cs0] eqn:Hcs.
  - unfold allocate in Ha. rewrite Hcs in Ha. simpl in Ha. injection Ha as <- <- <-.
    unfold allocate. by rewrite Hcs.
  - assert (Hne : controls s <> []) by (by rewrite Hcs).
    destruct (allocate_spec s x y wid ht d Hwf Hne)
      as (st2 & st3 & _ & _ & H & Hlw & Hlh & _).
    rewrite H in Ha. injection Ha as <- <- <-.
    rewrite allocate_caches_irrelevant by done. by rewrite H.
Qed.


(** Evaluates a call of [allocate] on concrete arguments and names its
    results. *)
Ltac evaluate_allocate call allocs s1 d2 Ha :=
  destruct call as [[[allocs s1] d2] | ?] eqn:Ha; [| by vm_compute in Ha];
  let Hv := fresh "Hv" in
  pose proof Ha as Hv; vm_compute in Hv; injection Hv as <- <- <-.

Lemma neighbors_only_in_horizontal_witness :
  let d := mkSizeData 0 0 0 0 in
  let sv : Stack unit unit := NewVerticalStack [leaf 1 10 5; leaf 2 20 7] in
  let sh : Stack unit unit := NewHorizontalStack [leaf 1 10 5; Space 9; leaf 3 30 6] in
  (exists allocs s1 d2, allocate sv 0 0 60 90 d = Returns (allocs, s1, d2) /\
     exists st1, placing_after sv 0 0 60 90 d 1 = Returns st1 /\
       allocations st1 = [] ++ [mkAllocation 0 0 60 5 1 None] /\
       current st1 = None /\ allocations st1 `prefix_of` allocs) /\
  (exists allocs s1 d2, allocate sh 0 0 60 9 d = Returns (allocs, s1, d2) /\
     exists st1, placing_after sh 0 0 60 9 d 2 = Returns st1 /\ current st1 = None /\
       exists st2, placing_after sh 0 0 60 9 d 3 = Returns st2 /\
         allocations st2 = allocations st1 ++ [mkAllocation 10 0 30 9 3 None]).
Proof.
  intros d sv sh. split.
  - evaluate_allocate (allocate sv 0 0 60 90 d) allocs s1 d2 Ha.
    eexists _, _, _. split; [reflexivity |].
    destruct (neighbors_only_in_horizontal sv 0 0 60 90 d _ _ _ (newStack_wf _ _) Ha)
      as [Hv _].
    destruct (Hv eq_refl 0%nat (leaf 1 10 5) (mkPlacing 0 0 None [] d) eq_refl eq_refl)
      as (_ & st1 & H1 & H2 & H3 & H4).
    exists st1. split; [exact H1 |]. split; [exact H2 |]. split; [exact H3 | exact H4].
  - evaluate_allocate (allocate sh 0 0 60 9 d) allocs s1 d2 Ha.
    eexists _, _, _. split; [reflexivity |].
    destruct (neighbors_only_in_horizontal sh 0 0 60 9 d _ _ _ (newStack_wf _ _) Ha)
      as [_ Hh].
    destruct (Hh eq_refl 1%nat (Space 9)
                (mkPlacing 10 0 (Some 0%nat) [mkAllocation 0 0 10 9 1 None] d)
                eq_refl eq_refl eq_refl)
      as (st1 & H1 & H2 & H3).
    exists st1. split; [exact H1 |]. split; [exact H2 |].
    destruct (H3 (leaf 3 30 6) eq_refl) as (st2 & H4 & H5).
    exists st2. split; [exact H4 |].
    rewrite H5. f_equal.
    clear H4 H5 H3. vm_compute in H1. injection H1 as <-. reflexivity.
Defined.

Lemma neighbor_is_the_next_control_witness :
  let d := mkSizeData 0 0 0 0 in
  let s : Stack unit unit := NewHorizontalStack [leaf 1 10 5; Space 9; leaf 3 30 6] in
  exists allocs s1 d2, allocate s 0 0 60 9 d = Returns (allocs, s1, d2) /\
    allocs !! 0%nat = Some (mkAllocation 0 0 10 9 1 (Some 9%nat)).
Proof.
  intros d s.
  evaluate_allocate (allocate s 0 0 60 9 d) allocs s1 d2 Ha.
  eexists _, _, _. split; [reflexivity |].
  exact (proj2 (neighbor_is_the_next_control s 0 0 60 9 d _ _ _ (newStack_wf _ _)
                  eq_refl Ha 0%nat (leaf 1 10 5) (Space 9) (mkPlacing 0 0 None [] d)
                  (mkAllocation 0 0 10 9 1 None) [] eq_refl eq_refl eq_refl eq_refl)).
Defined.

Lemma layout_is_repeatable_witness :
  let d := mkSizeData 3 4 5 6 in
  let s : Stack unit unit :=
    mkStack false horizontal [leaf 1 10 5; leaf 2 20 7; leaf 3 30 6]
            [false; true; false] [0; 0; 0] [0; 0; 0] in
  exists allocs s1 d2, allocate s 0 0 100 9 d = Returns (allocs, s1, d2) /\
    allocate s1 0 0 100 9 d = Returns (allocs, s1, d2) /\
    width s1 = [10; 44; 30] /\ stretchy s1 = stretchy s.
Proof.
  intros d s.
  assert (Hwf : wf s) by (unfold wf; simpl; done).
  evaluate_allocate (allocate s 0 0 100 9 d) allocs s1 d2 Ha.
  eexists _, _, _. split; [reflexivity |].
  destruct (layout_is_repeatable s 0 0 100 9 d _ _ _ Hwf Ha) as (H1 & _ & _ & H2 & _).
  split; [exact H1 |]. split; [reflexivity | exact H2].
Defined.



(** ** The UI dispatch bridge *)

Section BridgeFacts.

Import Bridge.

Lemma invariant_ui n : invariant (ui n).
Proof.
  split; simpl.
  - intros i Hi. by apply elem_of_nil in Hi.
  - repeat split. intros i [Hs _]. simpl in Hs.
    apply lookup_replicate in Hs as [? _]. discriminate.
Qed.

Lemma invariant_step e σ σ1 : invariant σ -> step e σ = Some σ1 -> invariant σ1.
Proof.
  intros [Hfin Hinv] Hstep. destruct e as [i | | | | |]; simpl in Hstep.
  - (* Handoff *)
    destruct (senders σ !! i) as [[|] |] eqn:Hi; try discriminate.
    destruct (relay_at σ) eqn:Hr; try discriminate.
    injection Hstep as <-. destruct Hinv as (Hops & Hloop & Hnone).
    pose proof (lookup_lt_Some _ _ _ Hi) as Hlt.
    assert (Hnot : i ∉ finished σ).
    { intros Hin. apply Hfin in Hin. congruence. }
    split; simpl.
    + intros j Hj. destruct (decide (j = i)) as [-> | Hne].
      * by rewrite list_lookup_insert_eq.
      * rewrite list_lookup_insert_ne by done. by apply Hfin.
    + repeat split; try done.
      * simpl. by rewrite list_lookup_insert_eq.
      * intros j [Hj Hjf]. simpl in *. destruct (decide (j = i)) as [-> | Hne]; [done |].
        rewrite list_lookup_insert_ne in Hj by done. by destruct (Hnone j).
  - (* AddIdle *)
    destruct (relay_at σ) eqn:Hr; try discriminate.
    injection Hstep as <-. destruct Hinv as (Hops & Hloop & Hf & Hone).
    split; [done |]. simpl. rewrite Hops. split; [| done]. left. done.
  - (* Dispatch *)
    destruct (loop_at σ) eqn:Hl; try discriminate.
    destruct (idle_ops σ) as [| f ops] eqn:Ho; try discriminate.
    injection Hstep as <-. split; [done |]. simpl.
    destruct (relay_at σ) eqn:Hr.
    + by destruct Hinv as (? & _).
    + by destruct Hinv as (? & _).
    + destruct Hinv as ([(Hops & _ & Hf) | [(? & ? & _) | (? & ? & _)]] & Hone);
        try discriminate.
      injection Hops as -> ->. split; [| done]. right. left. done.
    + by destruct Hinv as (? & _).
  - (* WhatReturns *)
    destruct (loop_at σ) as [| f |] eqn:Hl; try discriminate.
    injection Hstep as <-.
    destruct (relay_at σ) eqn:Hr; simpl.
    + destruct Hinv as (_ & ? & _). discriminate.
    + destruct Hinv as (_ & ? & _). discriminate.
    + destruct Hinv as ([(_ & ? & _) | [(Hops & Hlf & Hf) | (_ & ? & _)]] & Hone);
        try discriminate.
      injection Hlf as <-. split; simpl.
      * intros j Hj. apply elem_of_app in Hj as [Hj | Hj]; [by apply Hfin |].
        apply list_elem_of_singleton in Hj as ->. by destruct Hf.
      * split.
        -- right. right. repeat split; try done. apply elem_of_app. right. left.
        -- intros j [Hj Hjf]. simpl in *. apply Hone. split; [done |].
           intros Hin. apply Hjf, elem_of_app. by left.
    + destruct Hinv as (_ & ? & _). discriminate.
  - (* Done *)
    destruct (loop_at σ) as [| | f] eqn:Hl; try discriminate.
    destruct (relay_at σ) as [| | g |] eqn:Hr; try discriminate.
    destruct (decide (f = g)) as [-> | Hne]; try discriminate.
    injection Hstep as <-.
    destruct Hinv as ([(_ & ? & _) | [(_ & ? & _) | (Hops & _ & Hg)]] & Hone);
      try discriminate.
    split; [done |]. simpl. repeat split; try done.
    intros j Hj. pose proof (Hone j Hj) as ->. by destruct Hj.
  - (* Close *)
    destruct (relay_at σ) eqn:Hr; try discriminate.
    injection Hstep as <-. destruct Hinv as (Hops & Hloop & _ & Hnone).
    split; [done |]. simpl. done.
Qed.

Lemma invariant_run es σ σ1 : invariant σ -> run es σ = Some σ1 -> invariant σ1.
Proof.
  revert σ. induction es as [| e es IH]; intros σ Hinv; simpl.
  - by intros [= <-].
  - destruct (step e σ) as [σ2 |] eqn:He; [| discriminate].
    apply IH. by eapply invariant_step.
Qed.

Lemma invariant_reachable σ : reachable σ -> invariant σ.
Proof. intros (n & es & Hrun). eapply invariant_run; [apply invariant_ui | done]. Qed.

End BridgeFacts.

(** C3, as the code has it: a submitting goroutine stays blocked in its send
    until the relay has received its unit of work, which the relay does only
    when no unit is in flight; from then on the goroutine runs on, with its
    unit in flight.  It is the relay that holds the unit and stays blocked
    until the unit has finished on the main-loop thread: it gets past the
    receive on [done] only for a finished unit.  At most one unit of work is
    in flight at a time. *)
Theorem bridge_hands_over_one_unit_at_a_time (σ : Bridge.state) :
  Bridge.reachable σ ->
  (forall i j, Bridge.in_flight σ i -> Bridge.in_flight σ j -> i = j) /\
  (forall i σ1, Bridge.step (Bridge.Handoff i) σ = Some σ1 ->
     Bridge.senders σ !! i = Some Bridge.Sending /\
     Bridge.senders σ1 !! i = Some Bridge.Resumed /\
     (forall j, ~ Bridge.in_flight σ j) /\
     Bridge.in_flight σ1 i) /\
  (forall i, Bridge.in_flight σ i ->
     Bridge.relay_at σ = Bridge.AtAddIdle i \/ Bridge.relay_at σ = Bridge.AtRecvDone i) /\
  (forall f, Bridge.relay_at σ = Bridge.AtClose f -> f ∈ Bridge.finished σ).
Proof.
  intros Hreach. pose proof (invariant_reachable σ Hreach) as [Hfin Hinv].
  split; [| split; [| split]].
  - intros i j Hi Hj. destruct (Bridge.relay_at σ).
    + destruct Hinv as (_ & _ & Hnone). by destruct (Hnone i).
    + destruct Hinv as (_ & _ & _ & Hone). by rewrite (Hone i), (Hone j).
    + destruct Hinv as (_ & Hone). by rewrite (Hone i), (Hone j).
    + destruct Hinv as (_ & _ & _ & Hnone). by destruct (Hnone i).
  - intros i σ1 Hstep.
    assert (Hinv1 : Bridge.invariant σ1).
    { eapply invariant_step; [| exact Hstep]. by split. }
    simpl in Hstep.
    destruct (Bridge.senders σ !! i) as [[|] |] eqn:Hi; try discriminate.
    destruct (Bridge.relay_at σ) eqn:Hr; try discriminate.
    injection Hstep as <-. destruct Hinv as (_ & _ & Hnone).
    destruct Hinv1 as (_ & _ & _ & Hin & _). simpl in *.
    repeat split; try done; by destruct Hin.
  - intros i Hi. destruct (Bridge.relay_at σ).
    + destruct Hinv as (_ & _ & Hnone). by destruct (Hnone i).
    + destruct Hinv as (_ & _ & _ & Hone). left. by rewrite (Hone i).
    + destruct Hinv as (_ & Hone). right. by rewrite (Hone i).
    + destruct Hinv as (_ & _ & _ & Hnone). by destruct (Hnone i).
  - intros f Hf. rewrite Hf in Hinv. by destruct Hinv as (_ & _ & ? & _).
Qed.

Lemma bridge_hands_over_one_unit_at_a_time_witness :
  let σ := Bridge.mkState [Bridge.Resumed; Bridge.Sending] (Bridge.AtRecvDone 0)
                          [] (Bridge.InWhat 0) [] in
  Bridge.run [Bridge.Handoff 0; Bridge.AddIdle; Bridge.Dispatch] (Bridge.ui 2) = Some σ /\
  Bridge.step (Bridge.Handoff 1) σ = None /\
  forall i, Bridge.in_flight σ i -> i = 0%nat.
Proof.
  intros σ.
  assert (Hreach : Bridge.reachable σ).
  { exists 2%nat, [Bridge.Handoff 0; Bridge.AddIdle; Bridge.Dispatch]. reflexivity. }
  destruct (bridge_hands_over_one_unit_at_a_time σ Hreach) as (Hone & _).
  split; [reflexivity |]. split; [reflexivity |].
  intros i Hi. apply (Hone i 0%nat Hi). split; [reflexivity |].
  intros Hin. by apply elem_of_nil in Hin.
Defined.

(** C3, as the claim has it, does not hold: once the relay has received the
    unit of a goroutine, the goroutine is past its send while the unit has
    not run yet. *)
Lemma caller_resumes_before_its_unit_has_run : ~ Bridge.blocked_until_finished.
Proof.
  intros Hclaim.
  assert (Hreach : Bridge.reachable
            (Bridge.mkState [Bridge.Resumed] (Bridge.AtAddIdle 0) [] Bridge.Iterating [])).
  { exists 1%nat, [Bridge.Handoff 0]. reflexivity. }
  specialize (Hclaim _ 0%nat Hreach eq_refl). simpl in Hclaim.
  by apply elem_of_nil in Hclaim.
Qed.

(** * Further properties *)

(** ** The life of a Stack *)

Section LifecycleFacts.

Context {World sysData : Type}.
Implicit Types (s : Stack World sysData) (c : Control World sysData).

Lemma SetStretchy_fields s index s1 :
  SetStretchy s index = Returns s1 ->
  0 <= index /\ stretchy s1 = <[Z.to_nat index := true]> (stretchy s) /\
  created s = false /\ created s1 = false /\
  s_orientation s1 = s_orientation s /\ controls s1 = controls s /\
  width s1 = width s /\ height s1 = height s.
Proof.
  unfold SetStretchy, slice_set.
  destruct (created s) eqn:Hc; [discriminate |].
  destruct (index <? 0) eqn:Hneg; [discriminate |].
  destruct (index >? _); [discriminate |]. simpl.
  destruct (decide _); [| discriminate]. simpl. intros [= <-]. simpl.
  apply Z.ltb_ge in Hneg. done.
Qed.

Lemma make_fields s window w s1 w1 err :
  make s window w = (s1, w1, err) ->
  s_orientation s1 = s_orientation s /\ controls s1 = controls s /\
  stretchy s1 = stretchy s /\ width s1 = width s /\ height s1 = height s /\
  (created s = true -> created s1 = true).
Proof.
  unfold make. destruct (make_from window 0 (controls s) w) as [w2 [e |]];
    intros [= <- _ _]; done.
Qed.

Lemma perform_keeps k s w s1 w1 :
  wf s -> perform k (s, w) = Returns (s1, w1) ->
  wf s1 /\ controls s1 = controls s /\ s_orientation s1 = s_orientation s /\
  flags_kept (stretchy s) (stretchy s1) /\ (created s = true -> created s1 = true).
Proof.
  intros Hwf. destruct k as [index | window | x y wid ht d | d | a d | d]; simpl.
  - destruct (SetStretchy s index) as [s2 | p] eqn:E; simpl; [| discriminate].
    intros [= <- <-]. pose proof (SetStretchy_wf s index s2 Hwf E) as Hwf2.
    apply SetStretchy_fields in E as (_ & Hs & Hc & _ & Ho & Hcs & _).
    split; [done |]. split; [done |]. split; [done |]. split; [| congruence].
    intros j Hj. rewrite Hs. destruct (decide (j = Z.to_nat index)) as [-> | Hne].
    + apply list_lookup_insert_eq. by eapply lookup_lt_Some.
    + by rewrite list_lookup_insert_ne.
  - destruct (make s window w) as [[s2 w2] err] eqn:E. intros [= <- <-].
    pose proof (make_wf s window w s2 w2 err Hwf E) as Hwf2.
    apply make_fields in E as (Ho & Hcs & Hs & _ & _ & Hc).
    split; [done |]. split; [done |]. split; [done |]. split; [| done].
    intros j. by rewrite Hs.
  - destruct (allocate s x y wid ht d) as [[[allocs s2] d2] | p] eqn:E; simpl;
      [| discriminate].
    intros [= <- <-].
    destruct (allocate_wf s x y wid ht d allocs s2 d2 Hwf E) as (? & Hc & ? & ? & Hs).
    split; [done |]. split; [done |]. split; [done |]. split; [| congruence].
    intros j. by rewrite Hs.
  - destruct (preferredSize s d); simpl; [| discriminate].
    intros [= <- <-]. do 3 (split; [done |]). split; [by intros j | done].
  - intros [= <- <-]. do 3 (split; [done |]). split; [by intros j | done].
  - intros [= <- <-]. do 3 (split; [done |]). split; [by intros j | done].
Qed.

End LifecycleFacts.

(** X1: whatever methods are called on a Stack after its constructor, and in
    whatever order, for as long as they return: the slices [stretchy],
    [width] and [height] stay as long as [controls]; [controls] and the
    orientation stay what the constructor was given; a stretchy flag, once
    set, stays set; and [created], once set, stays set. *)
Theorem stack_invariant {World sysData : Type} (o : orientation)
    (cs : list (Control World sysData)) (ks : list (call sysData)) (w w1 : World)
    (s1 : Stack World sysData) :
  perform_all ks (newStack o cs, w) = Returns (s1, w1) ->
  wf s1 /\ controls s1 = cs /\ s_orientation s1 = o /\
  (forall ks2 w2 s2, perform_all ks2 (s1, w1) = Returns (s2, w2) ->
     flags_kept (stretchy s1) (stretchy s2) /\ (created s1 = true -> created s2 = true)).
Proof.
  assert (G : forall (ks : list (call sysData)) (s : Stack World sysData) (w : World)
                     (s1 : Stack World sysData) (w1 : World), wf s ->
            perform_all ks (s, w) = Returns (s1, w1) ->
            wf s1 /\ controls s1 = controls s /\ s_orientation s1 = s_orientation s /\
            flags_kept (stretchy s) (stretchy s1) /\
            (created s = true -> created s1 = true)).
  { clear. induction ks as [| k ks IH]; intros s w s1 w1 Hwf.
    - intros [= <- <-]. do 3 (split; [done |]). split; [by intros j | done].
    - change (perform_all (k :: ks) (s, w)) with (perform k (s, w) ≫= perform_all ks).
      destruct (perform k (s, w)) as [[s2 w2] | p] eqn:E; simpl; [| discriminate].
      intros Hrest.
      destruct (perform_keeps k s w s2 w2 Hwf E) as (Hwf2 & Hc2 & Ho2 & Hf2 & Hcr2).
      destruct (IH s2 w2 s1 w1 Hwf2 Hrest) as (Hwf1 & Hc1 & Ho1 & Hf1 & Hcr1).
      split; [done |]. split; [congruence |]. split; [congruence |].
      split; [| tauto]. intros j Hj. by apply Hf1, Hf2. }
  intros Hrun.
  destruct (G ks (newStack o cs) w s1 w1 (newStack_wf o cs) Hrun) as (Hwf & Hc & Ho & _).
  split; [done |]. split; [done |]. split; [done |].
  intros ks2 w2 s2 Hrun2.
  destruct (G ks2 s1 w1 s2 w2 Hwf Hrun2) as (_ & _ & _ & Hf & Hcr). done.
Qed.

Lemma stack_invariant_witness :
  let cs : list (Control (list ControlRef) unit) :=
    [widget 1 10 5 None; widget 2 20 7 None] in
  let d := mkSizeData 3 4 5 6 in
  let ks := [CallSetStretchy 1; CallAllocate 0 0 100 50 d; CallMake tt;
             CallPreferredSize d] in
  exists s1 w1, perform_all ks (NewVerticalStack cs, []) = Returns (s1, w1) /\
    wf s1 /\ controls s1 = cs /\ s_orientation s1 = vertical.
Proof.
  intros cs d ks.
  destruct (perform_all ks (NewVerticalStack cs, [])) as [[s1 w1] | p] eqn:E;
    [| by vm_compute in E].
  exists s1, w1. split; [reflexivity |].
  destruct (stack_invariant vertical cs ks [] w1 s1 E) as (H1 & H2 & H3 & _).
  split; [exact H1 |]. split; [exact H2 | exact H3].
Defined.

(** X3: [SetStretchy] only ever sets a flag.  Marking the same control twice
    is the same as marking it once, and marking two controls gives the same
    Stack in either order. *)
Theorem SetStretchy_algebra {World sysData : Type} (s s1 : Stack World sysData)
    (i : Z) :
  SetStretchy s i = Returns s1 ->
  SetStretchy s1 i = Returns s1 /\
  flags_kept (stretchy s) (stretchy s1) /\
  (forall j s2, SetStretchy s1 j = Returns s2 ->
     exists s3, SetStretchy s j = Returns s3 /\ SetStretchy s3 i = Returns s2).
Proof.
  intros Hi.
  assert (Hlt : (Z.to_nat i < length (stretchy s))%nat).
  { unfold SetStretchy, slice_set in Hi.
    destruct (created s); [discriminate |]. destruct (_ || _); [discriminate |].
    by destruct (decide _). }
  pose proof (SetStretchy_fields s i s1 Hi) as (Hi0 & Hs1 & Hc & Hc1 & Ho1 & Hcs1 & Hw1 & Hh1).
  assert (Hset : forall (t : Stack World sysData) k,
            created t = false -> 0 <= k -> (Z.to_nat k < length (stretchy t))%nat ->
            SetStretchy t k = Returns (with_stretchy t (<[Z.to_nat k := true]> (stretchy t)))).
  { intros t k Hct Hk Hkl. unfold SetStretchy. rewrite Hct.
    replace (k <? 0) with false by (symmetry; apply Z.ltb_ge; lia).
    replace (k >? Z.of_nat (length (stretchy t))) with false
      by (symmetry; rewrite Z.gtb_ltb; apply Z.ltb_ge; lia).
    simpl. by rewrite slice_set_Returns. }
  assert (Heq : forall (t u : Stack World sysData),
            created t = created u -> s_orientation t = s_orientation u ->
            controls t = controls u -> stretchy t = stretchy u ->
            width t = width u -> height t = height u -> t = u).
  { intros [] []; simpl; by intros -> -> -> -> -> ->. }
  split; [| split].
  - rewrite (Hset s1 i Hc1 Hi0) by (by rewrite Hs1, length_insert).
    f_equal. apply Heq; simpl; try done.
    by rewrite Hs1, list_insert_insert_eq.
  - intros j Hj. rewrite Hs1. destruct (decide (j = Z.to_nat i)) as [-> | Hne].
    + by apply list_lookup_insert_eq.
    + by rewrite list_lookup_insert_ne.
  - intros j s2 Hj.
    assert (Hjlt : (Z.to_nat j < length (stretchy s))%nat).
    { unfold SetStretchy, slice_set in Hj.
      destruct (created s1); [discriminate |]. destruct (_ || _); [discriminate |].
      destruct (decide _) as [H |]; [| discriminate].
      by rewrite Hs1, length_insert in H. }
    pose proof (SetStretchy_fields s1 j s2 Hj) as (Hj0 & Hs2 & _ & Hc2 & Ho2 & Hcs2 & Hw2 & Hh2).
    eexists. split; [by apply Hset |].
    rewrite Hset by (simpl; rewrite ?length_insert; done).
    f_equal. apply Heq; simpl; try congruence.
    rewrite Hs2, Hs1. destruct (decide (Z.to_nat i = Z.to_nat j)) as [-> | Hne].
    + done.
    + first [ by apply list_insert_insert_ne
            | symmetry; by apply list_insert_insert_ne ].
Qed.

Lemma SetStretchy_algebra_witness :
  let s : Stack unit unit := NewHorizontalStack [leaf 1 10 5; leaf 2 20 7; leaf 3 30 6] in
  exists s1 s2, SetStretchy s 2 = Returns s1 /\ SetStretchy s1 2 = Returns s1 /\
    SetStretchy s1 0 = Returns s2 /\
    exists s3, SetStretchy s 0 = Returns s3 /\ SetStretchy s3 2 = Returns s2.
Proof.
  intros s.
  destruct (SetStretchy s 2) as [s1 | p] eqn:E1; [| by vm_compute in E1].
  destruct (SetStretchy s1 0) as [s2 | p] eqn:E2;
    [| apply SetStretchy_fields in E1 as (_ & H1 & _ & H2 & _);
       unfold SetStretchy in E2; rewrite H2, H1 in E2; by vm_compute in E2].
  destruct (SetStretchy_algebra s s1 2 E1) as (H1 & _ & H2).
  exists s1, s2. split; [reflexivity |]. split; [exact H1 |]. split; [exact E2 |].
  exact (H2 0 s2 E2).
Defined.

(** ** The sizes [allocate] hands out *)

Section SizesHandedOut.

Context {World sysData : Type}.
Implicit Types (s : Stack World sysData) (c : Control World sysData).

Lemma stretchy_count_bounds s :
  wf s -> Z.of_nat (length (controls s)) <= GoInt.max_int ->
  select true (flagged s) <> [] ->
  0 < Z.of_nat (length (select true (flagged s))) <= GoInt.max_int.
Proof.
  intros Hwf Hmax Hsome. split.
  - destruct (select true (flagged s)); [done | simpl; lia].
  - pose proof (select_length_le true (flagged s)).
    rewrite (flagged_length s Hwf) in *. lia.
Qed.

Lemma share_of_count rest cnt :
  0 < cnt <= GoInt.max_int -> share_of rest (GoInt.wrap cnt) = GoInt.quo rest cnt.
Proof.
  intros Hcnt.
  rewrite wrap_id by (unfold GoInt.is_int, GoInt.min_int, GoInt.bits; lia).
  unfold share_of. destruct (Z.eqb_spec cnt 0); [lia | done].
Qed.

Lemma stretchy_lookup_select s i :
  stretchy s !! i = Some true -> wf s -> select true (flagged s) <> [].
Proof.
  intros Hi Hwf Hnil.
  destruct (lookup_lt_is_Some_2 (controls s) i) as [c Hc].
  { destruct Hwf as (<- & _). by eapply lookup_lt_Some. }
  pose proof (flagged_lookup s i c true Hc Hi) as Hf.
  assert (c ∈ select true (flagged s)) as Hin.
  { unfold select. apply list_elem_of_fmap. exists (c, true). split; [done |].
    apply list_elem_of_filter. split; [done |]. by eapply list_elem_of_lookup_2. }
  rewrite Hnil in Hin. by apply elem_of_nil in Hin.
Qed.

(** The caches after a call of [allocate] that returned. *)
Lemma allocate_caches s x y wid ht d allocs s1 d2 :
  wf s -> controls s <> [] -> Z.of_nat (length (controls s)) <= GoInt.max_int ->
  allocate s x y wid ht d = Returns (allocs, s1, d2) ->
  let o := s_orientation s in
  (forall j c, controls s !! j = Some c -> stretchy s !! j = Some false ->
     cached o (width s1) (height s1) j
            (primary o (c_preferredSize c (steal_margins d))) (offered_cross s wid ht d)) /\
  (forall j, stretchy s !! j = Some true ->
     cached o (width s1) (height s1) j
            (stretchy_share s wid ht d) (offered_cross s wid ht d)).
Proof.
  intros Hwf Hne Hmax Ha o.
  destruct (allocate_spec s x y wid ht d Hwf Hne)
    as (st2 & st3 & _ & _ & H & _ & _ & Hfix & Hstr).
  rewrite H in Ha. injection Ha as <- <- <-. simpl. split; [exact Hfix |].
  intros j Hj. specialize (Hstr j Hj).
  rewrite share_of_count in Hstr; [exact Hstr |].
  apply stretchy_count_bounds; try done. by eapply stretchy_lookup_select.
Qed.

Lemma quo_bounds rest cnt :
  GoInt.is_int rest -> 0 < cnt ->
  GoInt.quo rest cnt = Z.quot rest cnt.
Proof.
  intros Hrest Hcnt. unfold GoInt.quo. apply wrap_id.
  unfold GoInt.is_int, GoInt.min_int, GoInt.max_int, GoInt.bits in *.
  destruct (Z.le_gt_cases 0 rest) as [Hpos | Hneg].
  - pose proof (Z.quot_pos rest cnt Hpos Hcnt).
    assert (Z.quot rest cnt <= rest); [| lia].
    apply Z.quot_le_upper_bound; [done |]. nia.
  - assert (Z.quot rest cnt = - Z.quot (- rest) cnt) as ->.
    { rewrite Z.quot_opp_l by lia. lia. }
    pose proof (Z.quot_pos (- rest) cnt ltac:(lia) Hcnt).
    assert (Z.quot (- rest) cnt <= - rest); [| lia].
    apply Z.quot_le_upper_bound; [done |]. nia.
Qed.

End SizesHandedOut.

(** X4: a horizontal Stack gives all controls the same height and the
    non-stretchy ones their preferred widths, a vertical Stack the same
    width and their preferred heights: after [allocate], every control,
    stretchy or not, has the inset cross-axis extent of the offered
    rectangle, and every non-stretchy control has, along the primary axis,
    the extent it prefers in the sizing context without margins, whatever
    the rectangle offers. *)
Theorem sizes_handed_out {World sysData : Type} (s : Stack World sysData)
    (x y wid ht : Z) (d : sysSizeData)
    (allocs : list allocation) (s1 : Stack World sysData) (d2 : sysSizeData) :
  wf s -> allocate s x y wid ht d = Returns (allocs, s1, d2) ->
  forall j c, controls s !! j = Some c ->
    exists wv hv, width s1 !! j = Some wv /\ height s1 !! j = Some hv /\
      cross (s_orientation s) (wv, hv) = offered_cross s wid ht d /\
      (stretchy s !! j = Some false ->
       primary (s_orientation s) (wv, hv)
       = primary (s_orientation s) (c_preferredSize c (steal_margins d))).
Proof.
  intros Hwf Ha j c Hc.
  assert (Hne : controls s <> []) by (intros E; by rewrite E in Hc).
  destruct (allocate_spec s x y wid ht d Hwf Hne)
    as (st2 & st3 & _ & _ & H & _ & _ & Hfix & Hstr).
  rewrite H in Ha. injection Ha as <- <- <-. simpl.
  destruct (stretchy_lookup_wf s j c Hwf Hc) as [[|] Hb].
  - destruct (Hstr j Hb) as (wv & hv & Hw & Hh & _ & Hx).
    exists wv, hv. do 3 (split; [done |]). intros Hf. congruence.
  - destruct (Hfix j c Hc Hb) as (wv & hv & Hw & Hh & Hp & Hx).
    exists wv, hv. do 3 (split; [done |]). by intros _.
Qed.

Lemma sizes_handed_out_witness :
  let s : Stack unit unit :=
    mkStack false vertical [leaf 1 10 5; leaf 2 20 7] [false; true] [0; 0] [0; 0] in
  let d := mkSizeData 3 4 5 6 in
  exists allocs s1 d2, allocate s 0 0 100 50 d = Returns (allocs, s1, d2) /\
    width s1 = [94; 94] /\ height s1 !! 0%nat = Some 5.
Proof.
  intros s d.
  assert (Hwf : wf s) by (unfold wf; simpl; done).
  evaluate_allocate (allocate s 0 0 100 50 d) allocs s1 d2 Ha.
  eexists _, _, _. split; [reflexivity |].
  destruct (sizes_handed_out s 0 0 100 50 d _ _ _ Hwf Ha 0%nat (leaf 1 10 5) eq_refl)
    as (wv & hv & Hw & Hh & Hx & Hp).
  split; [reflexivity |]. rewrite Hh. f_equal. exact (Hp eq_refl).
Defined.

(** X5: the stretchy controls never get more than what is left, and what
    they leave over is less than one unit each: with [cnt] stretchy controls
    and a rest that is not negative, [cnt * share <= rest < cnt * share +
    cnt].  When the non-stretchy controls need more than is offered, the
    rest is negative and nothing clamps it: every stretchy control gets an
    extent that is negative or zero. *)
Theorem stretchy_shares_fit {World sysData : Type} (s : Stack World sysData)
    (x y wid ht : Z) (d : sysSizeData)
    (allocs : list allocation) (s1 : Stack World sysData) (d2 : sysSizeData) :
  wf s -> Z.of_nat (length (controls s)) <= GoInt.max_int ->
  select true (flagged s) <> [] ->
  allocate s x y wid ht d = Returns (allocs, s1, d2) ->
  let cnt := Z.of_nat (length (select true (flagged s))) in
  let rest := rest_for_stretchy s wid ht d in
  exists share,
    (forall i, stretchy s !! i = Some true ->
       cached (s_orientation s) (width s1) (height s1) i share
              (offered_cross s wid ht d)) /\
    (0 <= rest -> 0 <= share /\ cnt * share <= rest < cnt * share + cnt) /\
    (rest < 0 -> share <= 0 /\ cnt * share - cnt < rest <= cnt * share).
Proof.
  intros Hwf Hmax Hsome Ha cnt rest.
  assert (Hne : controls s <> []).
  { intros E. apply Hsome. unfold flagged. by rewrite E. }
  destruct (allocate_caches s x y wid ht d allocs s1 d2 Hwf Hne Hmax Ha) as [_ Hstr].
  destruct (stretchy_count_bounds s Hwf Hmax Hsome) as [Hcnt _]. fold cnt in Hcnt.
  exists (stretchy_share s wid ht d). split; [exact Hstr |].
  unfold stretchy_share. fold cnt rest.
  rewrite quo_bounds by (done || apply wrap_is_int).
  pose proof (Z.quot_rem' rest cnt) as Hqr.
  split; intros Hrest.
  - pose proof (Z.rem_bound_pos rest cnt Hrest Hcnt).
    pose proof (Z.quot_pos rest cnt Hrest Hcnt). lia.
  - pose proof (Z.rem_bound_pos_neg rest cnt Hcnt ltac:(lia)).
    assert (Z.quot rest cnt <= 0); [| lia].
    assert (Z.quot rest cnt = - Z.quot (- rest) cnt) as ->.
    { rewrite Z.quot_opp_l by lia. lia. }
    pose proof (Z.quot_pos (- rest) cnt ltac:(lia) Hcnt). lia.
Qed.

Lemma stretchy_shares_fit_witness :
  let s : Stack unit unit :=
    mkStack false horizontal [leaf 1 10 5; leaf 2 20 7; leaf 3 30 6]
            [true; false; true] [0; 0; 0] [0; 0; 0] in
  let d := mkSizeData 0 0 0 0 in
  (exists allocs s1 d2, allocate s 0 0 45 9 d = Returns (allocs, s1, d2) /\
     width s1 = [12; 20; 12]) /\
  (exists allocs s1 d2, allocate s 0 0 15 9 d = Returns (allocs, s1, d2) /\
     exists share, width s1 !! 0%nat = Some share /\ share <= 0).
Proof.
  intros s d.
  assert (Hwf : wf s) by (unfold wf; simpl; done).
  assert (Hmax : Z.of_nat (length (controls s)) <= GoInt.max_int)
    by (vm_compute; discriminate).
  assert (Hsome : select true (flagged s) <> []) by (vm_compute; discriminate).
  split.
  - evaluate_allocate (allocate s 0 0 45 9 d) allocs s1 d2 Ha.
    eexists _, _, _. split; reflexivity.
  - evaluate_allocate (allocate s 0 0 15 9 d) allocs s1 d2 Ha.
    eexists _, _, _. split; [reflexivity |].
    destruct (stretchy_shares_fit s 0 0 15 9 d _ _ _ Hwf Hmax Hsome Ha)
      as (share & Hc & _ & Hneg).
    destruct (Hc 0%nat eq_refl) as (wv & hv & Hw & _ & Hp & _).
    exists wv. split; [exact Hw |]. change (wv = share) in Hp. rewrite Hp.
    apply Hneg. vm_compute. reflexivity.
Defined.

(** ** preferredSize and allocate together *)

Section AtPreferredSize.

Context {World sysData : Type}.
Implicit Types (s : Stack World sysData) (c : Control World sysData).

Lemma steal_margins_id d : margin d = (0, 0) -> steal_margins d = d.
Proof.
  destruct d as [xm ym xp yp]. unfold margin, steal_margins. simpl.
  by intros [= -> ->].
Qed.

(** Offered what it prefers, and without margins, a Stack has left for its
    stretchy controls their number times the largest extent one of them
    prefers. *)
Lemma rest_at_preferred s wid ht d pw ph :
  wf s -> controls s <> [] -> margin d = (0, 0) ->
  preferredSize s d = Returns (pw, ph) ->
  primary (s_orientation s) (wid, ht) = primary (s_orientation s) (pw, ph) ->
  rest_for_stretchy s wid ht d
  = GoInt.wrap (Z.of_nat (length (select true (flagged s)))
                * max_from_zero (primary_extents (s_orientation s) d
                                   (select true (flagged s)))).
Proof.
  intros Hwf Hne Hm Hpref Hoff.
  destruct (preferredSize_closed_form s d Hwf Hne) as (pw1 & ph1 & Hr & Hp & _).
  rewrite Hpref in Hr. injection Hr as <- <-.
  unfold rest_for_stretchy, offered_primary.
  rewrite (steal_margins_id d Hm), Hoff, Hp, Hm.
  replace (primary (s_orientation s) (0, 0)) with 0
    by (unfold primary; by destruct (Bool.eqb _ _)).
  gowrap.
  match goal with
  | |- GoInt.wrap (GoInt.wrap ?a - ?b - ?c - ?e) = _ =>
      replace (GoInt.wrap a - b - c - e) with (GoInt.wrap a - (b + c + e)) by lia
  end.
  rewrite wrap_sub_l. f_equal. lia.
Qed.

End AtPreferredSize.

(** X6: [preferredSize] reserves, for every stretchy control, the largest
    extent a stretchy control prefers, and [allocate] gives it back: a Stack
    offered, without margins, the primary-axis extent its [preferredSize]
    returns gives each stretchy control exactly that largest extent (taken
    from 0 upwards), as long as their number times that extent fits an
    [int]; and a Stack without stretchy controls has nothing left over. *)
Theorem preferred_size_is_enough {World sysData : Type} (s : Stack World sysData)
    (x y wid ht : Z) (d : sysSizeData) (pw ph : Z)
    (allocs : list allocation) (s1 : Stack World sysData) (d2 : sysSizeData) :
  wf s -> controls s <> [] ->
  Z.of_nat (length (controls s)) <= GoInt.max_int ->
  margin d = (0, 0) ->
  preferredSize s d = Returns (pw, ph) ->
  primary (s_orientation s) (wid, ht) = primary (s_orientation s) (pw, ph) ->
  let largest :=
    max_from_zero (primary_extents (s_orientation s) d (select true (flagged s))) in
  GoInt.is_int (Z.of_nat (length (select true (flagged s))) * largest) ->
  allocate s x y wid ht d = Returns (allocs, s1, d2) ->
  (forall i, stretchy s !! i = Some true ->
     cached (s_orientation s) (width s1) (height s1) i largest
            (offered_cross s wid ht d)) /\
  (select true (flagged s) = [] -> rest_for_stretchy s wid ht d = 0).
Proof.
  intros Hwf Hne Hmax Hm Hpref Hoff largest Hfit Ha.
  pose proof (rest_at_preferred s wid ht d pw ph Hwf Hne Hm Hpref Hoff) as Hrest.
  fold largest in Hrest. rewrite (wrap_id _ Hfit) in Hrest.
  split.
  - intros i Hi.
    destruct (allocate_caches s x y wid ht d allocs s1 d2 Hwf Hne Hmax Ha) as [_ Hstr].
    specialize (Hstr i Hi).
    assert (Hsome : select true (flagged s) <> []) by (by eapply stretchy_lookup_select).
    destruct (stretchy_count_bounds s Hwf Hmax Hsome) as [Hcnt _].
    replace (stretchy_share s wid ht d) with largest in Hstr; [exact Hstr |].
    unfold stretchy_share. rewrite Hrest.
    pose proof (max_from_zero_nonneg
                  (primary_extents (s_orientation s) d (select true (flagged s)))) as H0.
    fold largest in H0.
    unfold GoInt.quo. rewrite (Z.mul_comm _ largest), Z.quot_mul by lia.
    symmetry. apply wrap_id.
    unfold GoInt.is_int, GoInt.min_int, GoInt.max_int, GoInt.bits in *. nia.
  - intros Hnil. rewrite Hrest, Hnil. reflexivity.
Qed.

Lemma preferred_size_is_enough_witness :
  let s : Stack unit unit :=
    mkStack false horizontal [leaf 1 10 5; leaf 2 20 7; leaf 3 30 6]
            [true; false; true] [0; 0; 0] [0; 0; 0] in
  let d := mkSizeData 0 0 5 6 in
  preferredSize s d = Returns (90, 7) /\
  exists allocs s1 d2, allocate s 0 0 90 7 d = Returns (allocs, s1, d2) /\
    width s1 !! 0%nat = Some 30 /\ width s1 !! 2%nat = Some 30.
Proof.
  intros s d.
  assert (Hwf : wf s) by (unfold wf; simpl; done).
  assert (Hne : controls s <> []) by discriminate.
  assert (Hmax : Z.of_nat (length (controls s)) <= GoInt.max_int)
    by (vm_compute; discriminate).
  assert (Hfit : GoInt.is_int (Z.of_nat (length (select true (flagged s)))
            * max_from_zero (primary_extents (s_orientation s) d (select true (flagged s)))))
    by (vm_compute; split; discriminate).
  split; [reflexivity |].
  evaluate_allocate (allocate s 0 0 90 7 d) allocs s1 d2 Ha.
  eexists _, _, _. split; [reflexivity |].
  destruct (preferred_size_is_enough s 0 0 90 7 d 90 7 _ _ _ Hwf Hne Hmax eq_refl
              eq_refl eq_refl Hfit Ha) as [Hstr _].
  destruct (Hstr 0%nat eq_refl) as (w0 & h0 & Hw0 & _ & Hp0 & _).
  destruct (Hstr 2%nat eq_refl) as (w2 & h2 & Hw2 & _ & Hp2 & _).
  split; [rewrite Hw0; f_equal; exact Hp0 | rewrite Hw2; f_equal; exact Hp2].
Defined.

(** ** allocate: the sizing context and the cursor *)

Section ContextAndCursor.

Context {World sysData : Type}.
Implicit Types (s : Stack World sysData) (c : Control World sysData).

Lemma leaf_keeps_context ref pw ph : keeps_context (@leaf World sysData ref pw ph).
Proof. by intros x y wid ht d _ _. Qed.

(** Every iteration of the third loop starts with the sizing context
    without margins, when no control writes to such a context. *)
Lemma placing_context s x y wid ht d allocs s1 d2 k st :
  wf s -> (forall c, c ∈ controls s -> keeps_context c) ->
  allocate s x y wid ht d = Returns (allocs, s1, d2) ->
  (k <= length (controls s))%nat ->
  placing_after s x y wid ht d k = Returns st -> pl_d st = steal_margins d.
Proof.
  intros Hwf Hkeep Ha Hk Hst.
  apply (placing_induction s x y wid ht d allocs s1 d2
           (fun _ st => pl_d st = steal_margins d) 0%nat _ Hwf Ha
           (placing_after_0 s x y wid ht d Hwf)) with (m := k); [done | | lia | done].
  intros j c stj st1 _ Hc Hstj Hd Hst1.
  destruct (placing_step s x y wid ht d allocs s1 d2 j c stj Hwf Ha Hc Hstj)
    as (st1' & Hst1' & Hd1 & _).
  rewrite Hst1 in Hst1'. injection Hst1' as <-.
  rewrite Hd1. unfold child_allocate. rewrite Hd.
  apply Hkeep; [by eapply list_elem_of_lookup_2 | done | done].
Qed.

Lemma primary_wrap o a b :
  primary o (GoInt.wrap a, GoInt.wrap b) = GoInt.wrap (primary o (a, b)).
Proof. unfold primary. by destruct (Bool.eqb _ _). Qed.

Lemma cross_wrap o a b :
  cross o (GoInt.wrap a, GoInt.wrap b) = GoInt.wrap (cross o (a, b)).
Proof. unfold cross. by destruct (Bool.eqb _ _). Qed.

Lemma cached_extents_lookup s k :
  (k < length (width s))%nat -> (k < length (height s))%nat ->
  cached_extents s !! k
  = Some (primary (s_orientation s) (width s !!! k, height s !!! k)).
Proof.
  intros Hw Hh. unfold cached_extents.
  destruct (lookup_lt_is_Some_2 _ _ Hw) as [w Hwk].
  destruct (lookup_lt_is_Some_2 _ _ Hh) as [h Hhk].
  rewrite (list_lookup_total_correct _ _ _ Hwk), (list_lookup_total_correct _ _ _ Hhk).
  apply lookup_zip_with_Some. by exists w, h.
Qed.

End ContextAndCursor.

(** X7: when no control writes to the sizing context, the cursor of the
    placement loop is a running sum: control [k] is placed, along the primary
    axis, at the inset origin plus the extents handed to the controls before
    it plus [k] times the padding, in Go's [int]; along the cross axis every
    control is placed at the inset origin. *)
Theorem cursor_is_a_running_sum {World sysData : Type} (s : Stack World sysData)
    (x y wid ht : Z) (d : sysSizeData)
    (allocs : list allocation) (s1 : Stack World sysData) (d2 : sysSizeData) :
  wf s -> (forall c, c ∈ controls s -> keeps_context c) ->
  allocate s x y wid ht d = Returns (allocs, s1, d2) ->
  forall k st, (k <= length (controls s))%nat ->
    placing_after s x y wid ht d k = Returns st ->
    let o := s_orientation s in
    primary o (pl_x st, pl_y st)
      = GoInt.wrap (primary o (x + xmargin d, y + ymargin d)
                    + sum_Z (take k (cached_extents s1))
                    + Z.of_nat k * primary o (padding d)) /\
    cross o (pl_x st, pl_y st) = GoInt.wrap (cross o (x + xmargin d, y + ymargin d)).
Proof.
  intros Hwf Hkeep Ha k st Hk Hst o.
  destruct (allocate_wf s x y wid ht d allocs s1 d2 Hwf Ha)
    as ((_ & Hlw & Hlh) & _ & Ho & Hcs & _).
  rewrite Hcs in Hlw, Hlh.
  apply (placing_induction s x y wid ht d allocs s1 d2
           (fun k st =>
              primary o (pl_x st, pl_y st)
                = GoInt.wrap (primary o (x + xmargin d, y + ymargin d)
                              + sum_Z (take k (cached_extents s1))
                              + Z.of_nat k * primary o (padding d)) /\
              cross o (pl_x st, pl_y st)
                = GoInt.wrap (cross o (x + xmargin d, y + ymargin d)))
           0%nat _ Hwf Ha (placing_after_0 s x y wid ht d Hwf)) with (m := k);
    [| | lia | done].
  - simpl. unfold GoInt.add. rewrite primary_wrap, cross_wrap.
    split; [| done].
    change (sum_Z (take 0 (cached_extents s1))) with 0.
    change (Z.of_nat 0) with 0. f_equal. lia.
  - intros j c stj st1 _ Hc Hstj [Hp Hx] Hst1.
    pose proof (lookup_lt_Some _ _ _ Hc) as Hj.
    destruct (placing_step s x y wid ht d allocs s1 d2 j c stj Hwf Ha Hc Hstj)
      as (st1' & Hst1' & Hd1 & Hp1 & Hx1 & _).
    rewrite Hst1 in Hst1'. injection Hst1' as <-.
    assert (Hd : pl_d st1 = steal_margins d).
    { apply (placing_context s x y wid ht d allocs s1 d2 (S j) st1 Hwf Hkeep Ha);
        [lia | done]. }
    rewrite <- Hd1, Hd in Hp1. fold o in Hp1, Hx1.
    split; [| by rewrite Hx1].
    rewrite Hp1, Hp.
    rewrite (take_S_r _ _ _ (cached_extents_lookup s1 j ltac:(lia) ltac:(lia))).
    rewrite sum_Z_snoc, Ho. fold o.
    change (padding (steal_margins d)) with (padding d).
    gowrap. f_equal. lia.
Qed.

Lemma cursor_is_a_running_sum_witness :
  let s : Stack unit unit :=
    mkStack false horizontal [leaf 1 10 5; leaf 2 20 7; leaf 3 30 6]
            [false; true; false] [0; 0; 0] [0; 0; 0] in
  let d := mkSizeData 3 4 5 6 in
  exists st, placing_after s 0 0 100 9 d 2 = Returns st /\
    pl_x st = 3 + (10 + 44) + 2 * 5 /\ pl_y st = 4.
Proof.
  intros s d.
  assert (Hwf : wf s) by (unfold wf; simpl; done).
  assert (Hkeep : forall c, c ∈ controls s -> keeps_context c).
  { intros c Hc. simpl in Hc.
    repeat (apply elem_of_cons in Hc as [-> | Hc]); try apply leaf_keeps_context.
    by apply elem_of_nil in Hc. }
  evaluate_allocate (allocate s 0 0 100 9 d) allocs s1 d2 Ha.
  destruct (placing_after s 0 0 100 9 d 2) as [st | p] eqn:Hst; [| by vm_compute in Hst].
  exists st. split; [reflexivity |].
  destruct (cursor_is_a_running_sum s 0 0 100 9 d _ _ _ Hwf Hkeep Ha 2%nat st
              ltac:(simpl; lia) Hst) as [Hp Hx].
  split; [exact Hp | exact Hx].
Defined.

(** X8: [allocate] takes the margins out of the sizing context before any
    control sees it, so that a nested container does not apply them again:
    when no control writes to a context without margins, every control is
    handed the context with both margins 0 and the padding as it came, that
    is also the context [allocate] leaves behind, and a context that came
    without margins is left as it was -- so a Stack used as a control is
    itself a control that does not write to such a context. *)
Theorem margins_are_taken_once {World sysData : Type} (s : Stack World sysData) :
  wf s -> (forall c, c ∈ controls s -> keeps_context c) ->
  (forall x y wid ht d allocs s1 d2,
     allocate s x y wid ht d = Returns (allocs, s1, d2) ->
     (forall k c st, controls s !! k = Some c ->
        placing_after s x y wid ht d k = Returns st ->
        child_allocate s1 k c st
        = c_allocate c (pl_x st) (pl_y st) (width s1 !!! k) (height s1 !!! k)
            (mkSizeData 0 0 (xpadding d) (ypadding d))) /\
     (controls s <> [] -> d2 = mkSizeData 0 0 (xpadding d) (ypadding d)) /\
     (margin d = (0, 0) -> d2 = d)) /\
  (forall ref, keeps_context (Stack_Control ref s)).
Proof.
  intros Hwf Hkeep.
  assert (G : forall x y wid ht d allocs s1 d2,
            allocate s x y wid ht d = Returns (allocs, s1, d2) ->
            (controls s <> [] -> d2 = steal_margins d) /\
            (controls s = [] -> d2 = d)).
  { intros x y wid ht d allocs s1 d2 Ha. split.
    - intros Hne.
      destruct (placing_after_all s x y wid ht d allocs s1 d2 Hwf Hne Ha)
        as (stN & HstN & _ & Hd2).
      rewrite <- Hd2.
      by apply (placing_context s x y wid ht d allocs s1 d2 (length (controls s)) stN).
    - intros Hnil. unfold allocate in Ha. rewrite Hnil in Ha. simpl in Ha.
      by injection Ha as _ _ <-. }
  split.
  - intros x y wid ht d allocs s1 d2 Ha. split; [| split].
    + intros k c st Hc Hst. unfold child_allocate. f_equal.
      apply (placing_context s x y wid ht d allocs s1 d2 k st Hwf Hkeep Ha); [| done].
      apply lookup_lt_Some in Hc. lia.
    + intros Hne. by apply (G x y wid ht d allocs s1 d2 Ha).
    + intros Hm. destruct (G x y wid ht d allocs s1 d2 Ha) as [G1 G2].
      destruct (controls s) as [| c0 cs0] eqn:Hcs; [by apply G2 |].
      rewrite G1 by done. by apply steal_margins_id.
  - intros ref x y wid ht d Hxm Hym. unfold Stack_Control. simpl.
    destruct (allocate_returns s x y wid ht d Hwf) as [[[allocs s1] d2] Ha].
    rewrite Ha. simpl.
    destruct (G x y wid ht d allocs s1 d2 Ha) as [G1 G2].
    destruct (controls s) as [| c0 cs0] eqn:Hcs; [by apply G2 |].
    rewrite G1 by done. apply steal_margins_id. unfold margin. by rewrite Hxm, Hym.
Qed.

Lemma margins_are_taken_once_witness :
  let s : Stack unit unit := NewVerticalStack [leaf 2 20 7; leaf 3 30 6] in
  let d := mkSizeData 3 4 5 6 in
  let d0 := mkSizeData 0 0 5 6 in
  (exists allocs s1 d2, allocate s 0 0 100 50 d = Returns (allocs, s1, d2) /\
     d2 = mkSizeData 0 0 5 6) /\
  (c_allocate (Stack_Control 8 s) 10 20 100 50 d0).2 = d0.
Proof.
  intros s d d0.
  assert (Hkeep : forall c, c ∈ controls s -> keeps_context c).
  { intros c Hc. unfold s, NewVerticalStack, newStack in Hc. cbn [controls] in Hc.
    apply elem_of_cons in Hc as [-> | Hc]; [apply leaf_keeps_context |].
    apply elem_of_cons in Hc as [-> | Hc]; [apply leaf_keeps_context |].
    by apply elem_of_nil in Hc. }
  destruct (margins_are_taken_once s (newStack_wf _ _) Hkeep) as [H Hs].
  split.
  - evaluate_allocate (allocate s 0 0 100 50 d) allocs s1 d2 Ha.
    eexists _, _, _. split; [reflexivity |].
    destruct (H 0 0 100 50 d _ _ _ Ha) as (_ & Hd2 & _).
    apply Hd2. discriminate.
  - apply (Hs 8%nat 10 20 100 50 d0); reflexivity.
Defined.

(** ** allocate: what becomes of the allocations of the controls *)

Section AllocationsKept.

Context {World sysData : Type}.
Implicit Types (s : Stack World sysData) (c : Control World sysData).

Lemma rect_of_set_neighbor r a : rect_of (set_neighbor r a) = rect_of a.
Proof. reflexivity. Qed.

(** The rest of the loop leaves an allocation where it is and writes to
    nothing of it but [neighbor], and not to that in a vertical Stack. *)
Lemma placing_keeps_rect s x y wid ht d allocs s1 d2 k0 st0 p v m st :
  wf s -> allocate s x y wid ht d = Returns (allocs, s1, d2) ->
  placing_after s x y wid ht d k0 = Returns st0 ->
  allocations st0 !! p = Some v ->
  (k0 <= m <= length (controls s))%nat ->
  placing_after s x y wid ht d m = Returns st ->
  exists v', allocations st !! p = Some v' /\ rect_of v' = rect_of v /\
             (s_orientation s = vertical -> v' = v).
Proof.
  intros Hwf Ha H0 Hp Hm Hst.
  apply (placing_induction s x y wid ht d allocs s1 d2
           (fun _ st => exists v', allocations st !! p = Some v' /\
                          rect_of v' = rect_of v /\
                          (s_orientation s = vertical -> v' = v))
           k0 st0 Hwf Ha H0) with (m := m); [by exists v | | done | done].
  intros k c stk st1 _ Hc Hstk (v' & Hv' & Hr & Hvert) Hst1.
  destruct (placing_step s x y wid ht d allocs s1 d2 k c stk Hwf Ha Hc Hstk)
    as (st1' & Hst1' & _ & _ & _ & Hal & _).
  rewrite Hst1 in Hst1'. injection Hst1' as <-.
  pose proof (lookup_lt_Some _ _ _ Hv') as Hlt.
  rewrite Hal, lookup_app_l by (by rewrite link_current_length).
  unfold link_current. destruct (s_orientation s) eqn:Ho; simpl.
  - exists v'. split; [done |]. split; [done |]. exact Hvert.
  - destruct (current stk) as [q |] eqn:Hcq; [| by exists v'].
    destruct (decide (q = p)) as [-> | Hqp].
    + exists (set_neighbor (c_ref c) v'). rewrite list_lookup_alter_eq, Hv'.
      split; [done |]. split; [| discriminate].
      by rewrite rect_of_set_neighbor.
    + exists v'. rewrite list_lookup_alter_ne by done. split; [done |].
      split; [done | discriminate].
Qed.

End AllocationsKept.

(** X9: [allocate] returns the allocations of its controls in the order of
    the controls, each list in its own order, and writes to nothing of an
    allocation but [neighbor]: allocation [j] of control [k] is in the
    returned slice at the place the loop appended it to, with the rectangle
    and the owner the control gave it; a vertical Stack returns it exactly
    as the control made it. *)
Theorem allocations_keep_their_rectangles {World sysData : Type}
    (s : Stack World sysData) (x y wid ht : Z) (d : sysSizeData)
    (allocs : list allocation) (s1 : Stack World sysData) (d2 : sysSizeData) :
  wf s -> allocate s x y wid ht d = Returns (allocs, s1, d2) ->
  forall k c st j a,
    controls s !! k = Some c ->
    placing_after s x y wid ht d k = Returns st ->
    (child_allocate s1 k c st).1 !! j = Some a ->
    exists a', allocs !! (length (allocations st) + j)%nat = Some a' /\
      rect_of a' = rect_of a /\
      (s_orientation s = vertical -> a' = a).
Proof.
  intros Hwf Ha k c st j a Hc Hst Hj.
  assert (Hne : controls s <> []) by (intros E; by rewrite E in Hc).
  pose proof (lookup_lt_Some _ _ _ Hc) as Hk.
  set (p := (length (allocations st) + j)%nat).
  destruct (placing_step s x y wid ht d allocs s1 d2 k c st Hwf Ha Hc Hst)
    as (st1 & Hst1 & _ & _ & _ & Hal & _).
  assert (Hp1 : allocations st1 !! p = Some a).
  { rewrite Hal, lookup_app_r by (rewrite link_current_length; subst p; lia).
    rewrite link_current_length. subst p.
    by replace (length (allocations st) + j - length (allocations st))%nat with j by lia. }
  destruct (placing_after_all s x y wid ht d allocs s1 d2 Hwf Hne Ha)
    as (stN & HstN & Hallocs & _).
  subst allocs.
  exact (placing_keeps_rect s x y wid ht d _ s1 d2 (S k) st1 p a
           (length (controls s)) stN Hwf Ha Hst1 Hp1 ltac:(lia) HstN).
Qed.

Lemma allocations_keep_their_rectangles_witness :
  let s : Stack unit unit := NewHorizontalStack [leaf 1 10 5; leaf 2 20 7] in
  let d := mkSizeData 0 0 0 0 in
  exists allocs s1 d2, allocate s 0 0 60 9 d = Returns (allocs, s1, d2) /\
    (exists a', allocs !! 0%nat = Some a' /\ rect_of a' = (0, 0, 10, 9, 1%nat)) /\
    (exists a', allocs !! 1%nat = Some a' /\ rect_of a' = (10, 0, 20, 9, 2%nat)).
Proof.
  intros s d.
  evaluate_allocate (allocate s 0 0 60 9 d) allocs s1 d2 Ha.
  eexists _, _, _. split; [reflexivity |].
  pose proof (allocations_keep_their_rectangles s 0 0 60 9 d _ _ _
                (newStack_wf _ _) Ha) as H.
  split.
  - destruct (H 0%nat (leaf 1 10 5) (mkPlacing 0 0 None [] d) 0%nat
                (mkAllocation 0 0 10 9 1 None) eq_refl eq_refl eq_refl)
      as (a' & Ha' & Hr & _).
    exists a'. split; [exact Ha' | exact Hr].
  - destruct (H 1%nat (leaf 2 20 7)
                (mkPlacing 10 0 (Some 0%nat) [mkAllocation 0 0 10 9 1 None] d) 0%nat
                (mkAllocation 10 0 20 9 2 None) eq_refl eq_refl eq_refl)
      as (a' & Ha' & Hr & _).
    exists a'. split; [exact Ha' | exact Hr].
Defined.

(** ** preferredSize and the sizing context *)

Section Extensionality.

Context {World sysData St : Type}.

Lemma range_from_ext (body1 body2 : nat -> Control World sysData -> St -> outcome St)
    cs i st :
  (forall j c st, cs !! j = Some c -> body1 (i + j)%nat c st = body2 (i + j)%nat c st) ->
  range_from body1 i cs st = range_from body2 i cs st.
Proof.
  revert i st. induction cs as [| c cs IH]; intros i st Hext; simpl; [done |].
  pose proof (Hext 0%nat c st eq_refl) as H0. rewrite Nat.add_0_r in H0. rewrite H0.
  destruct (body2 i c st) as [st1 | p]; simpl; [| done].
  apply IH. intros j c1 st2 Hj.
  replace (S i + j)%nat with (i + S j)%nat by lia. by apply Hext.
Qed.

End Extensionality.

(** X10: [preferredSize] does not consider the margins: it reads nothing of
    the sizing context but the padding, so two contexts with the same
    padding, in which every control prefers the same size, give the same
    result -- the same panic included. *)
Theorem preferredSize_reads_only_the_padding {World sysData : Type}
    (s : Stack World sysData) (d d' : sysSizeData) :
  (forall c, c ∈ controls s -> c_preferredSize c d = c_preferredSize c d') ->
  padding d = padding d' ->
  preferredSize s d = preferredSize s d'.
Proof.
  intros Hsame Hpad. unfold padding in Hpad. injection Hpad as Hx Hy.
  unfold preferredSize. rewrite Hx, Hy.
  destruct (length (controls s) =? 0)%nat; [done |].
  match goal with
  | |- (range_from _ _ _ ?st0 ≫= _) = _ =>
      rewrite (range_from_ext (tally_body s d) (tally_body s d') (controls s) 0 st0)
  end; [done |].
  intros j c st Hc. unfold tally_body.
  rewrite (Hsame c) by (by eapply list_elem_of_lookup_2). done.
Qed.

Lemma preferredSize_reads_only_the_padding_witness :
  let s : Stack unit unit :=
    mkStack false vertical [leaf 1 10 5; leaf 2 20 7] [false; true] [0; 0] [0; 0] in
  preferredSize s (mkSizeData 30 40 5 6) = preferredSize s (mkSizeData 0 0 5 6).
Proof.
  intros s. apply preferredSize_reads_only_the_padding; [| reflexivity].
  intros c Hc. unfold s in Hc. cbn [controls] in Hc.
  apply elem_of_cons in Hc as [-> | Hc]; [reflexivity |].
  apply elem_of_cons in Hc as [-> | Hc]; [reflexivity |].
  by apply elem_of_nil in Hc.
Defined.

(** ** The bridge: what runs, and that it goes on *)

Section BridgeRuns.

Import Bridge.

Lemma step_finished_NoDup e σ σ1 :
  invariant σ -> NoDup (finished σ) -> step e σ = Some σ1 -> NoDup (finished σ1).
Proof.
  intros [Hfin Hinv] Hnd Hstep. destruct e as [i | | | | |]; simpl in Hstep.
  - destruct (senders σ !! i) as [[|] |]; try discriminate.
    destruct (relay_at σ); try discriminate. by injection Hstep as <-.
  - destruct (relay_at σ); try discriminate. by injection Hstep as <-.
  - destruct (loop_at σ); try discriminate.
    destruct (idle_ops σ); try discriminate. by injection Hstep as <-.
  - destruct (loop_at σ) as [| f |] eqn:Hl; try discriminate.
    injection Hstep as <-. simpl.
    apply NoDup_app. split; [done |]. split; [| apply NoDup_singleton].
    intros j Hj Hjf. apply list_elem_of_singleton in Hjf as ->.
    destruct (relay_at σ).
    + destruct Hinv as (_ & ? & _). discriminate.
    + destruct Hinv as (_ & ? & _). discriminate.
    + destruct Hinv as ([(_ & ? & _) | [(_ & Hlf & Hf) | (_ & ? & _)]] & _);
        try discriminate.
      injection Hlf as <-. by destruct Hf.
    + destruct Hinv as (_ & ? & _). discriminate.
  - destruct (loop_at σ); try discriminate.
    destruct (relay_at σ); try discriminate.
    destruct (decide _); try discriminate. by injection Hstep as <-.
  - destruct (relay_at σ); try discriminate. by injection Hstep as <-.
Qed.

Lemma run_finished_NoDup es σ σ1 :
  invariant σ -> NoDup (finished σ) -> run es σ = Some σ1 -> NoDup (finished σ1).
Proof.
  revert σ. induction es as [| e es IH]; intros σ Hinv Hnd; simpl.
  - by intros [= <-].
  - destruct (step e σ) as [σ2 |] eqn:He; [| discriminate].
    apply IH; [by eapply invariant_step | by eapply step_finished_NoDup].
Qed.

End BridgeRuns.

(** X11: the bridge runs no unit of work twice and runs nothing it was not
    handed: the units that have finished are pairwise distinct and each was
    submitted by a goroutine that is past its send; the main loop holds at
    most one idle operation of the bridge; and a unit that is executing is
    the one the relay waits for, and has not finished before. *)
Theorem bridge_runs_each_unit_once (σ : Bridge.state) :
  Bridge.reachable σ ->
  NoDup (Bridge.finished σ) /\
  (forall i, i ∈ Bridge.finished σ -> Bridge.senders σ !! i = Some Bridge.Resumed) /\
  (length (Bridge.idle_ops σ) <= 1)%nat /\
  (forall f, Bridge.loop_at σ = Bridge.InWhat f ->
     Bridge.relay_at σ = Bridge.AtRecvDone f /\ f ∉ Bridge.finished σ).
Proof.
  intros Hreach. pose proof (invariant_reachable σ Hreach) as [Hfin Hinv].
  destruct Hreach as (n & es & Hrun).
  split; [| split; [done | split]].
  - eapply run_finished_NoDup; [apply invariant_ui | apply NoDup_nil_2 | exact Hrun].
  - destruct (Bridge.relay_at σ).
    + destruct Hinv as (-> & _). simpl. lia.
    + destruct Hinv as (-> & _). simpl. lia.
    + destruct Hinv as ([(-> & _) | [(-> & _) | (-> & _)]] & _); simpl; lia.
    + destruct Hinv as (-> & _). simpl. lia.
  - intros f Hf. destruct (Bridge.relay_at σ).
    + destruct Hinv as (_ & ? & _). congruence.
    + destruct Hinv as (_ & ? & _). congruence.
    + destruct Hinv as ([(_ & ? & _) | [(_ & Hl & Hin) | (_ & ? & _)]] & _);
        try congruence.
      rewrite Hf in Hl. injection Hl as ->. split; [done | by destruct Hin].
    + destruct Hinv as (_ & ? & _). congruence.
Qed.

Lemma bridge_runs_each_unit_once_witness :
  let es := [Bridge.Handoff 1; Bridge.AddIdle; Bridge.Dispatch; Bridge.WhatReturns;
             Bridge.Done; Bridge.Close; Bridge.Handoff 0; Bridge.AddIdle;
             Bridge.Dispatch] in
  exists σ, Bridge.run es (Bridge.ui 2) = Some σ /\
    Bridge.finished σ = [1%nat] /\ Bridge.loop_at σ = Bridge.InWhat 0 /\
    0%nat ∉ Bridge.finished σ.
Proof.
  intros es. eexists. split; [reflexivity |]. split; [reflexivity |].
  split; [reflexivity |].
  match goal with
  | |- _ ∉ Bridge.finished ?σ =>
      assert (Hreach : Bridge.reachable σ) by (exists 2%nat, es; reflexivity);
      destruct (bridge_runs_each_unit_once σ Hreach) as (_ & _ & _ & H);
      exact (proj2 (H 0%nat eq_refl))
  end.
Defined.
